(** * The ETL notebook [notebooks/00-etl.ipynb], embedded in Rocq.

    The notebook is a sequence of cells working on pandas frames.  Each cell
    that the properties below talk about is translated to a function on
    explicit data: frames are column labels with rows of nullable cells, a
    Python exception is an [Err] result, Python integers are [Z]. *)

From Stdlib Require Import ZArith QArith Lia Ascii String List.
From stdpp Require Import base tactics option list gmap strings pretty.

Local Open Scope Z_scope.

(** ** Results of a cell: a value or a raised exception *)

Inductive pyerror : Type :=
  | ZeroDivisionError
  | KeyError (label : string)
  | AssertionError (msg : string)
  | IntCastingNaNError
  | TypeError
  | ValueError
  | MergeError
  | AttributeError
  | OverflowError.

Inductive result (A : Type) : Type :=
  | Ok (a : A)
  | Err (e : pyerror).
Arguments Ok {A} a.
Arguments Err {A} e.

(** Cells run one after the other; an exception ends the run.  With these
    instances [x ← c; k] is stdpp's notation for that sequencing. *)
#[export] Instance result_ret : MRet result := λ A a, Ok a.
#[export] Instance result_fmap : FMap result := λ A B f r,
  match r with
  | Ok a => Ok (f a)
  | Err e => Err e
  end.
#[export] Instance result_bind : MBind result := λ A B k r,
  match r with
  | Ok a => k a
  | Err e => Err e
  end.

(** ** Spatial signatures, Load cell: writing the frame in chunks *)

Module Partitioner.
Section Partitioner.
Context {A : Type}.

(** A bound of a Python slice over a sequence of [n] items: a negative
    index counts from the end, and every index is clamped to [0, n]. *)
Definition slice_index (n i : Z) : Z :=
  if i <? 0 then Z.max 0 (i + n) else Z.min i n.

(** [ss.iloc[start:stop]] *)
Definition iloc (ss : list A) (start stop : Z) : list A :=
  let n := Z.of_nat (length ss) in
  let lo := slice_index n start in
  let hi := slice_index n stop in
  take (Z.to_nat (hi - lo)) (drop (Z.to_nat lo) ss).

(** [range(n)] *)
Definition range (n : Z) : list Z := seqZ 0 n.

(** [n_chunks = len(ss) // chunk_size + 1]; [//] is floor division, as
    [Z.div] is.  Division by zero is raised by [partition]. *)
Definition n_chunks (ss : list A) (chunk_size : Z) : Z :=
  Z.of_nat (length ss) / chunk_size + 1.

(** One turn of the loop: [chunk_num] and the rows of the chunk. *)
Definition chunk (ss : list A) (chunk_size i : Z) : Z * list A :=
  (i + 1, iloc ss (i * chunk_size) ((i + 1) * chunk_size)).

(** The loop of the cell: the files written, in the order written, each
    as its [chunk_num] and the rows of the chunk. *)
Definition partition (ss : list A) (chunk_size : Z)
    : result (list (Z * list A)) :=
  if chunk_size =? 0 then Err ZeroDivisionError
  else Ok (chunk ss chunk_size <$> range (n_chunks ss chunk_size)).

(** The number of partitions in the words of the specification:
    the ceiling of [len / k]. *)
Definition spec_n_partitions (len k : Z) : Z := - ((- len) / k).

(** [len(chunk)] of each file written. *)
Definition sizes (parts : list (Z * list A)) : list Z :=
  (λ p, Z.of_nat (length p.2)) <$> parts.

End Partitioner.
End Partitioner.

(** ** Strings: the [str] and [re] operations the cells use

    Column labels and text cells are modelled as [string], that is as
    sequences of 8-bit characters, read as the code points U+0000 to
    U+00FF; the case and white space rules below are Python's on that
    range. *)

Module Normalizer.

(** The letters [s.lower()] changes: A to Z, and the accented capitals
    U+00C0 to U+00DE without the multiplication sign U+00D7.  Each has
    its small letter 32 places further on. *)
Definition is_upper (a : ascii) : bool :=
  let n := N_of_ascii a in
  (((65 <=? n) && (n <=? 90))
   || ((192 <=? n) && (n <=? 222) && negb (n =? 215)))%N.

Definition lower_char (a : ascii) : ascii :=
  if is_upper a then ascii_of_N (N_of_ascii a + 32) else a.

(** [s.lower()] *)
Fixpoint lower (s : string) : string :=
  match s with
  | EmptyString => EmptyString
  | String a s' => String (lower_char a) (lower s')
  end.

(** White space as [str.isspace], [str.strip] and the pattern [\s] see
    it: tab to carriage return, the four separators 28 to 31, space,
    next line (U+0085) and the no-break space (U+00A0). *)
Definition is_space (a : ascii) : bool :=
  let n := N_of_ascii a in
  (((9 <=? n) && (n <=? 13)) || ((28 <=? n) && (n <=? 32))
   || (n =? 133) || (n =? 160))%N.

(** [s.replace(old, new)] for a non-empty [old]: scanning from the left,
    every occurrence of [old] that does not overlap the one before is
    replaced.  [skip] counts the characters of a matched occurrence that
    are still to be passed over. *)
Fixpoint replace_go (old new : string) (skip : nat) (s : string) : string :=
  match s with
  | EmptyString => EmptyString
  | String a s' =>
      match skip with
      | S n => replace_go old new n s'
      | O =>
          if String.prefix old s
          then new +:+ replace_go old new (String.length old - 1) s'
          else String a (replace_go old new 0 s')
      end
  end.

Fixpoint interleave (new : string) (s : string) : string :=
  match s with
  | EmptyString => EmptyString
  | String a s' => String a (new +:+ interleave new s')
  end.

(** [s.replace(old, new)]; with an empty [old], [new] is put before
    every character and at the end. *)
Definition replace (old new s : string) : string :=
  match old with
  | EmptyString => new +:+ interleave new s
  | String _ _ => replace_go old new 0 s
  end.

(** [re.sub(r'\s+', ' ', s)]: every maximal run of white space becomes
    one space.  [in_run] tells that the character before was white
    space, so that the run has been replaced already. *)
Fixpoint re_sub_ws_go (in_run : bool) (s : string) : string :=
  match s with
  | EmptyString => EmptyString
  | String a s' =>
      if is_space a
      then (if in_run then re_sub_ws_go true s'
            else String " " (re_sub_ws_go true s'))
      else String a (re_sub_ws_go false s')
  end.

Definition re_sub_ws (s : string) : string := re_sub_ws_go false s.

Fixpoint lstrip (s : string) : string :=
  match s with
  | EmptyString => EmptyString
  | String a s' => if is_space a then lstrip s' else s
  end.

Fixpoint rstrip (s : string) : string :=
  match s with
  | EmptyString => EmptyString
  | String a s' =>
      match rstrip s' with
      | EmptyString => if is_space a then EmptyString else String a EmptyString
      | t => String a t
      end
  end.

(** [s.strip()] *)
Definition strip (s : string) : string := rstrip (lstrip s).

(** [h a] written out for every character [a] of [s], in order: the
    shape of every rule below that looks at one character at a time. *)
Fixpoint per_char (h : ascii → string) (s : string) : string :=
  match s with
  | EmptyString => EmptyString
  | String a s' => h a +:+ per_char h s'
  end.

(** The label rules of the cells.

    Data columns of the merged frame:
    [re.sub(r'\s+', ' ', c)]. *)
Definition clean_data_label (c : string) : string := re_sub_ws c.

(** Sociodemographic, outcomes and auxiliary sheets:
    [c.lower().replace(" ", "_")]. *)
Definition clean_sheet_label (c : string) : string :=
  replace " " "_" (lower c).

(** Environmental sheet:
    [c.lower().replace(" ", "_").replace("(", "").replace(")", "")]. *)
Definition clean_environmental_label (c : string) : string :=
  replace ")" "" (replace "(" "" (replace " " "_" (lower c))).

(** The sheet rules on a single character. *)
Definition sheet_char (a : ascii) : string :=
  clean_sheet_label (String a "").

Definition environmental_char (a : ascii) : string :=
  clean_environmental_label (String a "").

(** The normalizer in the words of the specification, rule by rule:
    collapse white space runs, trim, lower-case, spaces to underscores,
    drop parentheses. *)
Definition spec_normalize (x : string) : string :=
  replace ")" "" (replace "(" "" (replace " " "_" (lower (strip (re_sub_ws x))))).

End Normalizer.

(** ** Frames

    A frame is its column labels and its rows; a row holds one cell per
    column, in the order of the labels, and a cell is a value or null
    ([None] stands for NaN and for Python's [None]).  Rows are kept in the
    order of the frame; the row labels the cells work with are the
    positions 0, 1, ... ([read_excel], [read_csv] and [ignore_index=True]
    all number the rows that way).

    A column has the type the readers give it from its cells: a column
    that holds a text is of type object, a column of numbers and nulls
    is numeric (float64 as soon as it holds a null, where the null is
    NaN), a column of shapes is a geometry column, and a frame without
    rows has object columns.  Column labels of a frame are pairwise
    distinct as the readers make them; the properties that need it say
    so. *)

Module Frame.

Inductive value : Type :=
  | Str (s : string)
  | Num (z : Z)
  | Shape (g : N).
(* [Num]: whole numbers; numbers with a fractional part are outside the
   model.  [Shape]: a geometry, known by a number. *)

#[export] Instance value_eq_dec : EqDecision value.
Proof. solve_decision. Defined.

#[export] Instance value_countable : Countable value.
Proof.
  refine (inj_countable'
    (λ v, match v with
          | Str s => inl s
          | Num z => inr (inl z)
          | Shape g => inr (inr g)
          end)
    (λ x, match x with
          | inl s => Str s
          | inr (inl z) => Num z
          | inr (inr g) => Shape g
          end) _).
  intros []; reflexivity.
Defined.

Definition cell : Type := option value.

Record DataFrame : Type := mkDataFrame {
  columns : list string;
  rows : list (list cell)
}.

(** [len(df)] *)
Definition len (df : DataFrame) : nat := length (rows df).

(** Position of a label among the columns. *)
Definition index_of (c : string) (cols : list string) : option nat :=
  fst <$> list_find (λ x, x = c) cols.

Definition cell_at_pos (i : nat) (r : list cell) : cell := mjoin (r !! i).

(** The cell of row [r] under label [c]; null when there is no such
    column. *)
Definition cell_at (cols : list string) (r : list cell) (c : string) : cell :=
  index_of c cols ≫= λ i, cell_at_pos i r.

(** A row of a frame with columns [src], laid out for columns [dst]. *)
Definition reindex (src dst : list string) (r : list cell) : list cell :=
  cell_at src r <$> dst.

(** The cells under label [c], row by row. *)
Definition column (c : string) (df : DataFrame) : list cell :=
  (λ r, cell_at (columns df) r c) <$> rows df.

(** [df[c]] *)
Definition getitem (c : string) (df : DataFrame) : result (list cell) :=
  match index_of c (columns df) with
  | Some i => Ok (cell_at_pos i <$> rows df)
  | None => Err (KeyError c)
  end.

(** [df[c] = vals], for [vals] computed from the rows of [df]: an
    existing column is replaced in place, a new one is added last. *)
Definition setitem (c : string) (vals : list cell) (df : DataFrame)
    : DataFrame :=
  let cols :=
    if bool_decide (c ∈ columns df) then columns df else columns df ++ [c] in
  {| columns := cols;
     rows := zip_with
               (λ r v, (λ c', if decide (c' = c) then v
                              else cell_at (columns df) r c') <$> cols)
               (rows df) vals |}.

(** [df.assign(c=v)] with a scalar [v] *)
Definition assign_scalar (c : string) (v : value) (df : DataFrame)
    : DataFrame :=
  setitem c (replicate (len df) (Some v)) df.

(** [df[[c1, ..., cn]]] *)
Definition select (cs : list string) (df : DataFrame) : result DataFrame :=
  match list_find (λ c, c ∉ columns df) cs with
  | Some (_, c) => Err (KeyError c)
  | None => Ok {| columns := cs;
                  rows := reindex (columns df) cs <$> rows df |}
  end.

(** [df.iloc[:, k:]] *)
Definition drop_columns (k : nat) (df : DataFrame) : DataFrame :=
  {| columns := drop k (columns df); rows := drop k <$> rows df |}.

(** [df.columns = [f(c) for c in df.columns]] *)
Definition map_columns (f : string → string) (df : DataFrame) : DataFrame :=
  {| columns := f <$> columns df; rows := rows df |}.

(** [df.rename(columns=m)] *)
Definition rename (m : gmap string string) (df : DataFrame) : DataFrame :=
  map_columns (λ c, default c (m !! c)) df.

(** [set(df.columns)] *)
Definition column_set (df : DataFrame) : gset string :=
  list_to_set (columns df).

(** [a ^ b] on sets *)
Definition symmetric_difference `{Countable K} (a b : gset K) : gset K :=
  (a ∖ b) ∪ (b ∖ a).

(** [pd.concat(dfs, ignore_index=True)]: the columns are those of the
    frames in the order they first appear, the rows are those of the
    frames one frame after the other, null where a frame lacks a
    column. *)
Definition concat_columns (dfs : list DataFrame) : list string :=
  foldl (λ acc df, acc ++ list_difference (columns df) acc) [] dfs.

Definition pd_concat (dfs : list DataFrame) : DataFrame :=
  let cols := concat_columns dfs in
  {| columns := cols;
     rows := dfs ≫= λ df, reindex (columns df) cols <$> rows df |}.

(** [pd.DataFrame(records)] for records with the same keys [cols] *)
Definition from_records (cols : list string) (records : list (gmap string value))
    : DataFrame :=
  {| columns := cols; rows := (λ d, (λ c, d !! c) <$> cols) <$> records |}.

(** [df.loc[0] = d] for a dict [d] on a frame whose rows are numbered
    from 0: the dict is aligned with the columns (null where it has no
    entry) and becomes row 0, replacing the row the frame has there or,
    in a frame without rows, as its new and only row. *)
Definition loc0_set (d : gmap string value) (df : DataFrame) : DataFrame :=
  let r := (λ c, d !! c) <$> columns df in
  {| columns := columns df;
     rows := match rows df with
             | [] => [r]
             | _ :: rs => r :: rs
             end |}.

(** *** The kind of cells a column holds *)

Definition is_text (c : cell) : bool :=
  match c with Some (Str _) => true | _ => false end.

Definition is_number (c : cell) : bool :=
  match c with Some (Num _) => true | _ => false end.

Definition is_null (c : cell) : bool :=
  match c with None => true | _ => false end.

Definition has_text (s : list cell) : bool := existsb is_text s.

(** A column of numbers and nulls. *)
Definition numbers_or_nulls (s : list cell) : bool :=
  forallb (λ c, is_number c || is_null c) s.

(** A column of type object in which pandas infers text: it holds a
    text and no number. *)
Definition text_column (s : list cell) : bool :=
  has_text s && negb (existsb is_number s).

(** A column of a numeric type: it has rows, and holds numbers and
    nulls only. *)
Definition numeric_column (s : list cell) : bool :=
  negb (bool_decide (s = [])) && numbers_or_nulls s.

(** *** [left.merge(right, on=key, how="left")]

    As the cells call it: one key, default suffixes, no [validate]
    argument.  Every left row, in the order of the left frame, is
    paired with each right row that has its key, in the order of the
    right frame; a left row without partner is kept once, with null in
    the columns that come from the right.  Nulls count as equal keys.
    The key column of the right frame is dropped; other labels that
    occur on both sides get the suffixes [_x] and [_y].

    The merge raises [KeyError] for a key that is not a column of both
    frames, then [ValueError] for key columns that cannot be compared,
    one of text and the other numeric, and last [MergeError] when the
    suffixes make two labels of one frame equal. *)
Definition keys_clash (left_keys right_keys : list cell) : bool :=
  (text_column left_keys && numeric_column right_keys)
  || (numeric_column left_keys && text_column right_keys).

Definition add_suffix (others : list string) (sfx c : string) : string :=
  if bool_decide (c ∈ others) then c +:+ sfx else c.

(** [labels.duplicated()]: for every label, whether it stands earlier
    in the list already.  [seen] holds the labels passed. *)
Fixpoint duplicated_from (seen labels : list string) : list bool :=
  match labels with
  | [] => []
  | c :: rest => bool_decide (c ∈ seen) :: duplicated_from (c :: seen) rest
  end.

Definition duplicated (labels : list string) : list bool :=
  duplicated_from [] labels.

(** [renamed[renamed.duplicated() & ~labels.duplicated()]]: the labels
    that repeat an earlier one only since the suffix was added. *)
Definition suffix_duplicates (labels renamed : list string) : list string :=
  omap (λ x, if x.2.1 && negb x.2.2 then Some x.1 else None)
    (zip renamed (zip (duplicated renamed) (duplicated labels))).

(** The labels of the merged frame, for the labels of the left frame
    and those of the right frame without the key; and whether the
    suffixes made two labels of one frame equal. *)
Definition merge_labels (left_cols rcols : list string) : list string :=
  (add_suffix rcols "_x" <$> left_cols)
  ++ (add_suffix left_cols "_y" <$> rcols).

Definition suffix_clash (left_cols rcols : list string) : bool :=
  negb (bool_decide
          (suffix_duplicates left_cols (add_suffix rcols "_x" <$> left_cols)
           ++ suffix_duplicates rcols (add_suffix left_cols "_y" <$> rcols)
           = [])).

(** The labels of a frame without its key column. *)
Definition without_key (key : string) (cols : list string) : list string :=
  match index_of key cols with
  | Some j => delete j cols
  | None => cols
  end.

Definition matches (j : nat) (k : cell) (right_rows : list (list cell))
    : list (list cell) :=
  filter (λ r, cell_at_pos j r = k) right_rows.

Definition merge_row (i j width : nat) (right_rows : list (list cell))
    (l : list cell) : list (list cell) :=
  match matches j (cell_at_pos i l) right_rows with
  | [] => [l ++ replicate width None]
  | ms => (λ r, l ++ delete j r) <$> ms
  end.

Definition merge_left (key : string) (left right : DataFrame)
    : result DataFrame :=
  match index_of key (columns left), index_of key (columns right) with
  | Some i, Some j =>
      let rcols := delete j (columns right) in
      if keys_clash (cell_at_pos i <$> rows left) (cell_at_pos j <$> rows right)
      then Err ValueError
      else if suffix_clash (columns left) rcols
      then Err MergeError
      else Ok {| columns := merge_labels (columns left) rcols;
                 rows := rows left
                         ≫= merge_row i j (length rcols) (rows right) |}
  | _, _ => Err (KeyError key)
  end.

(** What a merge with at most one partner per row puts after the cells of
    a left row [l]: the cells of the partner without the key, or nulls
    when no right row has the key of [l]. *)
Definition lookup_part (i j width : nat) (right_rows : list (list cell))
    (l ext : list cell) : Prop :=
  (∃ r, r ∈ right_rows ∧ cell_at_pos j r = cell_at_pos i l ∧ ext = delete j r)
  ∨ ((∀ r, r ∈ right_rows → cell_at_pos j r ≠ cell_at_pos i l)
     ∧ ext = replicate width None).

(** *** Operations on one column *)

(** The nearest non-null cell above position [i], in the words of the
    specification; null when every cell above is null. *)
Definition spec_nearest_preceding (s : list cell) (i : nat) : cell :=
  last (omap id (take i s)).

(** [t] is [s] forward filled, in the words of the specification: a value
    stays, a null takes the nearest value above it; where there is none
    the cell is null. *)
Definition forward_filled (s t : list cell) : Prop :=
  length t = length s
  ∧ ∀ (i : nat) (c : cell), s !! i = Some c →
      t !! i = Some (match c with
                     | Some v => Some v
                     | None => spec_nearest_preceding s i
                     end).

(** [s.ffill()]: a null cell takes the last value seen above it; [prev]
    is that value, null as long as none was seen. *)
Fixpoint ffill_from (prev : cell) (s : list cell) : list cell :=
  match s with
  | [] => []
  | Some v :: s' => Some v :: ffill_from (Some v) s'
  | None :: s' => prev :: ffill_from prev s'
  end.

Definition ffill (s : list cell) : list cell := ffill_from None s.

Fixpoint traverse {A B : Type} (f : A → result B) (l : list A)
    : result (list B) :=
  match l with
  | [] => Ok []
  | a :: l' => b ← f a; bs ← traverse f l'; Ok (b :: bs)
  end.

(** The 64-bit integers. *)
Definition int64_min : Z := - 2 ^ 63.
Definition int64_max : Z := 2 ^ 63 - 1.

Definition in_int64 (z : Z) : bool := (int64_min <=? z) && (z <=? int64_max).

(** A cell of a numeric column that is the same number as a float and
    as a 64-bit integer: a null, or a whole number of magnitude at most
    2^53. *)
Definition exact_or_null (c : cell) : Prop :=
  c = None ∨ ∃ z, c = Some (Num z) ∧ - 2 ^ 53 ≤ z ≤ 2 ^ 53.

(** The cast of one number of a float64 column to int64: a number
    outside the range comes out as the smallest integer (what the
    conversion gives on x86-64). *)
Definition cast_float (c : cell) : cell :=
  match c with
  | Some (Num z) => Some (Num (if in_int64 z then z else int64_min))
  | _ => c
  end.

(** [int(x)] for one cell of a column of type object, where a null is
    NaN.  A text that spells a number would be cast to it; the model
    has every text raise. *)
Definition int_of_object (c : cell) : result cell :=
  match c with
  | Some (Num z) => if in_int64 z then Ok c else Err OverflowError
  | Some (Str _) => Err ValueError
  | Some (Shape _) => Err TypeError
  | None => Err ValueError
  end.

(** [s.astype(int)]: in a numeric column a null cannot be cast and a
    number is converted; a column of any other type is cast cell by
    cell from the top. *)
Definition astype_int (s : list cell) : result (list cell) :=
  if numbers_or_nulls s
  then (if bool_decide (None ∈ s) then Err IntCastingNaNError
        else Ok (cast_float <$> s))
  else traverse int_of_object s.

(** [f] on a text cell, null for any other cell. *)
Definition str_cell (f : string → string) (c : cell) : cell :=
  match c with
  | Some (Str x) => Some (Str (f x))
  | _ => None
  end.

(** A column that has the accessor [.str] and that a text can be added
    to: a column of type object, one that holds a text or has no
    rows. *)
Definition object_column (s : list cell) : bool :=
  bool_decide (s = []) || has_text s.

(** [s.str.f()]: [f] on the text cells, null elsewhere; a column that
    is not of type object has no [.str]. *)
Definition str_map (f : string → string) (s : list cell)
    : result (list cell) :=
  if object_column s then Ok (str_cell f <$> s) else Err AttributeError.

(** [p + s] for a text [p]: in a column of type object text cells get
    the prefix, nulls stay null, and any other value cannot be added to
    a text; nor can a column of another type, numeric or of shapes,
    whatever it holds. *)
Definition radd_str (p : string) (s : list cell) : result (list cell) :=
  if object_column s
  then traverse (λ c, match c with
                      | Some (Str x) => Ok (Some (Str (p +:+ x)))
                      | None => Ok None
                      | Some _ => Err TypeError
                      end) s
  else Err TypeError.

End Frame.

(** ** MedSat, Transform: the data cells

    The cells read and write the variables of the notebook; [state] holds
    the ones these cells use.  [medsat] is unbound until its cell has run. *)

Module MedSat.
Import Frame Normalizer.

Record state : Type := mkState {
  lsoa_to_region : DataFrame;
  medsat_2019 : DataFrame;
  medsat_2020 : DataFrame;
  medsat : option DataFrame
}.

(** First cell: the three files as read, the lookup cut to its three
    columns, the year added to each yearly frame. *)
Definition load (lookup_csv geojson_2019 geojson_2020 : DataFrame)
    : result state :=
  lookup ← select ["LSOA21CD"; "RGN22CD"; "RGN22NM"] lookup_csv;
  Ok {| lsoa_to_region := lookup;
        medsat_2019 := assign_scalar "year" (Num 2019) geojson_2019;
        medsat_2020 := assign_scalar "year" (Num 2020) geojson_2020;
        medsat := None |}.

(** [assert len(set(medsat_2019.columns) ^ set(medsat_2020.columns)) == 0] *)
Definition schema_assert (st : state) : result state :=
  if decide (size (symmetric_difference (column_set (medsat_2019 st))
                                        (column_set (medsat_2020 st))) = 0%nat)
  then Ok st
  else Err (AssertionError "Columns do not match between Medsat Dataset Years").

Section Cells.
(** Two library calls are taken as given: the stable sort of the rows
    by the listed columns, and the repair of a shape. *)
Variable sort_values : list string → DataFrame → result DataFrame.
Variable make_valid : cell → cell.

Definition medsat_cell (st : state) : result state :=
  let both := pd_concat [medsat_2019 st; medsat_2020 st] in
  let renamed := rename {["geography code" := "LSOA21CD"]} both in
  merged ← merge_left "LSOA21CD" renamed (lsoa_to_region st);
  sorted ← sort_values ["RGN22CD"; "LSOA21CD"; "year"] merged;
  geometry ← getitem "geometry" sorted;
  let valid := setitem "geometry" (make_valid <$> geometry) sorted in
  Ok {| lsoa_to_region := lsoa_to_region st;
        medsat_2019 := medsat_2019 st;
        medsat_2020 := medsat_2020 st;
        medsat := Some (map_columns clean_data_label valid) |}.

(** Running cells top to bottom: the run stops at the first cell that
    raises, with the variables as they were before that cell. *)
Fixpoint run (cells : list (state → result state)) (st : state)
    : state * option pyerror :=
  match cells with
  | [] => (st, None)
  | c :: cs =>
      match c st with
      | Ok st' => run cs st'
      | Err e => (st, Some e)
      end
  end.

Definition data_cells : list (state → result state) :=
  [schema_assert; medsat_cell].
End Cells.

(** ** MedSat, Transform: the metadata cells

    Each takes the sheet as [parse] returns it. *)

(** The sociodemographic sheet with its labels cleaned and renamed, before
    any column is filled. *)
Definition sociodemographic_labelled (sheet : DataFrame) : DataFrame :=
  rename {["source.1" := "source_category"]}
    (map_columns clean_sheet_label (drop_columns 1 sheet)).

Definition sociodemographic_cell (sheet : DataFrame) : result DataFrame :=
  let df1 := sociodemographic_labelled sheet in
  more_info ← getitem "more_info" df1;
  let df2 := setitem "more_info" (ffill more_info) df1 in
  year ← getitem "year" df2;
  year' ← astype_int (ffill year);
  let df3 := setitem "year" year' df2 in
  type ← getitem "type" df3;
  stripped ← str_map strip type;
  replaced ← str_map (replace "  " " ") stripped;
  Ok (setitem "type" replaced df3).

Section Matching.
(** [find_best_match] is imported from the [utils] module; the cell
    hands it each declared name with the set of census columns. *)
Variable find_best_match : cell → gset string → cell.

(** [medsat.filter(regex="^c_").columns] *)
Definition c_columns (medsat : DataFrame) : gset string :=
  list_to_set (filter (λ c, String.prefix "c_" c = true) (columns medsat)).

Definition match_cell (medsat sociodemographic : DataFrame)
    : result DataFrame :=
  name ← getitem "name" sociodemographic;
  Ok (setitem "medsat_name"
        ((λ n, find_best_match n (c_columns medsat)) <$> name)
        sociodemographic).
End Matching.

(** The environmental sheet with its labels cleaned. *)
Definition environmental_labelled (sheet : DataFrame) : DataFrame :=
  map_columns clean_environmental_label (drop_columns 3 sheet).

Definition environmental_cell (sheet : DataFrame) : result DataFrame :=
  let df0 := environmental_labelled sheet in
  link ← getitem "link_to_data_source" df0;
  let df1 := setitem "link_to_data_source" (ffill link) df0 in
  name ← getitem "name" df1;
  medsat_name ← radd_str "e_" name;
  Ok (setitem "medsat_name" medsat_name df1).

Definition outcomes_cell (sheet : DataFrame) : result DataFrame :=
  let df0 := map_columns clean_sheet_label (drop_columns 4 sheet) in
  name ← getitem "name" df0;
  fixed ← str_map (replace "quantitiy" "quantity") name;
  medsat_name ← radd_str "o_" fixed;
  Ok (setitem "medsat_name" medsat_name df0).

Definition lsoa_record : gmap string value :=
  {[ "name" := Str "LSOA21CD";
     "meaning" := Str "LSOA code";
     "medsat_name" := Str "LSOA21CD" ]}.

Definition field_record (name meaning : string) : gmap string value :=
  {[ "name" := Str name; "meaning" := Str meaning; "medsat_name" := Str name ]}.

Definition new_fields : DataFrame :=
  from_records ["name"; "meaning"; "medsat_name"]
    [ field_record "RGN22CD" "Region code";
      field_record "RGN22NM" "Region name";
      field_record "year" "year of medsat data" ].

(** The auxiliary sheet with its labels cleaned. *)
Definition auxiliary_labelled (sheet : DataFrame) : DataFrame :=
  map_columns clean_sheet_label (drop_columns 1 sheet).

Definition auxiliary_cell (sheet : DataFrame) : result DataFrame :=
  let df0 := auxiliary_labelled sheet in
  name ← getitem "name" df0;
  let df1 := setitem "medsat_name" name df0 in
  let df2 := loc0_set lsoa_record df1 in
  Ok (pd_concat [df2; new_fields]).

(** The single lookup table of all variables. *)
Definition category_part (cols : list string) (category : string)
    (df : DataFrame) : result DataFrame :=
  part ← select cols df;
  Ok (assign_scalar "category" (Str category) part).

Definition variables_cell
    (sociodemographic environmental outcomes auxiliary : DataFrame)
    : result DataFrame :=
  s ← category_part ["medsat_name"; "type"] "sociodemographic" sociodemographic;
  e ← category_part ["medsat_name"; "type"] "environmental" environmental;
  o ← category_part ["medsat_name"; "type"] "outcomes" outcomes;
  a ← category_part ["medsat_name"] "auxiliary" auxiliary;
  Ok (pd_concat [s; e; o; a]).

(** [set(medsat.columns) ^ set(variables["medsat_name"])]: the labels
    and the cells are compared as Python values, a label being a text. *)
Definition gap_check (medsat variables : DataFrame) : result (gset cell) :=
  names ← getitem "medsat_name" variables;
  Ok (symmetric_difference
        (list_to_set ((λ c, Some (Str c)) <$> columns medsat))
        (list_to_set names)).

End MedSat.

(** ** The matcher

    The notebook imports [find_best_match] from the [utils] module and
    calls it with a declared name and the candidate columns. *)

Module Matcher.
Section Matcher.

(** The similarity of a declared name and a candidate, the least score
    that is accepted, and the table of forced columns. *)
Variable score : string → string → Q.
Variable threshold : Q.
Variable overrides : gmap string string.

(** Modelled from the spec: what a call of the absent [find_best_match]
    reports.  The matched column with its score (a forced column has
    none), whether the best score was shared by several candidates, and
    the candidates that were scored, in the order they were scored. *)
Record outcome : Type := mkOutcome {
  matched : option (string * option Q);
  tie : bool;
  scored : list string
}.

(** Modelled from the spec: one step of the search for the best
    candidate, part of the absent [find_best_match].  A higher score wins;
    on equal scores the name that comes first in the order of the
    dictionary stays, and the tie is recorded. *)
Definition keep_best (declared : string) (acc : option (string * Q) * bool)
    (c : string) : option (string * Q) * bool :=
  let sc := score declared c in
  match acc.1 with
  | None => (Some (c, sc), false)
  | Some (b, sb) =>
      match (sc ?= sb)%Q with
      | Gt => (Some (c, sc), false)
      | Eq => (Some (if String.ltb c b then c else b, sb), true)
      | Lt => acc
      end
  end.

(** Modelled from the spec: the scoring pass of the absent
    [find_best_match].  Every candidate is scored; the best one is
    returned unless its score is below the threshold. *)
Definition fuzzy_pass (declared : string) (candidates : list string)
    : outcome :=
  let '(best, tied) := foldl (keep_best declared) (None, false) candidates in
  {| matched := match best with
                | Some (c, sc) =>
                    match (sc ?= threshold)%Q with
                    | Lt => None
                    | _ => Some (c, Some sc)
                    end
                | None => None
                end;
     tie := tied;
     scored := candidates |}.

(** Modelled from the spec: the body of [find_best_match], which lives in
    the [utils] module and is not among the sources.  A declared name
    with an entry in the override table gets the forced column, before
    and instead of the scoring; any other name gets the candidate of
    highest score if that score reaches the threshold. *)
Definition match_ (declared : string) (candidates : gset string) : outcome :=
  match overrides !! declared with
  | Some forced => {| matched := Some (forced, None); tie := false; scored := [] |}
  | None => fuzzy_pass declared (elements candidates)
  end.

End Matcher.
End Matcher.

(** ** Small frames to run the cells on *)

Module Examples.
Import Frame.

Definition txt (s : string) : cell := Some (Str s).

Definition primary : DataFrame :=
  {| columns := ["LSOA21CD"; "c_total"];
     rows := [ [txt "E01000001"; Some (Num 10)];
               [txt "E01000009"; Some (Num 20)];
               [txt "E01000001"; Some (Num 30)] ] |}.

Definition lookup : DataFrame :=
  {| columns := ["LSOA21CD"; "RGN22CD"; "RGN22NM"];
     rows := [ [txt "E01000001"; txt "E12000007"; txt "London"];
               [txt "E01000002"; txt "E12000007"; txt "London"] ] |}.

(** The same key on two rows. *)
Definition lookup_twice : DataFrame :=
  {| columns := ["LSOA21CD"; "RGN22CD"; "RGN22NM"];
     rows := [ [txt "E01000001"; txt "E12000007"; txt "London"];
               [txt "E01000001"; txt "E12000008"; txt "South East"] ] |}.

(** A lookup whose keys are numbers. *)
Definition lookup_numbered : DataFrame :=
  {| columns := ["LSOA21CD"; "RGN22CD"; "RGN22NM"];
     rows := [ [Some (Num 1000001); txt "E12000007"; txt "London"];
               [Some (Num 1000002); txt "E12000007"; txt "London"] ] |}.

(** An environmental sheet whose link column starts with a null. *)
Definition environmental_sheet : DataFrame :=
  {| columns := ["Unnamed: 0"; "Unnamed: 1"; "Unnamed: 2";
                 "Name"; "Type"; "Link to data source"];
     rows := [ [None; None; None; txt "no2"; txt "air quality"; None];
               [None; None; None; txt "pm10"; txt "air quality";
                txt "https://example.org/air"];
               [None; None; None; txt "ndvi"; txt "greenery"; None] ] |}.

Definition sociodemographic_sheet : DataFrame :=
  {| columns := ["Unnamed: 0"; "Name"; "Type"; "Year"; "More info"; "Source.1"];
     rows := [ [None; txt "c_total population"; txt " count"; Some (Num 2021);
                txt "https://example.org/census"; txt "census"];
               [None; txt "c_percent male"; txt "percent  of total"; None;
                None; txt "census"] ] |}.

(** The same sheet with no year on its first row. *)
Definition sociodemographic_sheet_no_year : DataFrame :=
  {| columns := ["Unnamed: 0"; "Name"; "Type"; "Year"; "More info"; "Source.1"];
     rows := [ [None; txt "c_total population"; txt " count"; None;
                txt "https://example.org/census"; txt "census"];
               [None; txt "c_percent male"; txt "percent  of total";
                Some (Num 2021); None; txt "census"] ] |}.

Definition auxiliary_sheet : DataFrame :=
  {| columns := ["Unnamed: 0"; "Name"; "Meaning"];
     rows := [ [None; txt "geography code"; txt "LSOA code"];
               [None; txt "centroid_x"; txt "x of the centroid"] ] |}.

Definition typed (names : list string) : DataFrame :=
  {| columns := ["medsat_name"; "type"];
     rows := (λ n, [txt n; txt "float"]) <$> names |}.

(** Two yearly frames that differ in one column. *)
Definition mismatched : MedSat.state :=
  {| MedSat.lsoa_to_region := lookup;
     MedSat.medsat_2019 :=
       {| columns := ["geography code"; "c_total"; "geometry"; "year"];
          rows := [ [txt "E01000001"; Some (Num 10); Some (Shape 1);
                     Some (Num 2019)] ] |};
     MedSat.medsat_2020 :=
       {| columns := ["geography code"; "c_total"; "c_new"; "geometry"; "year"];
          rows := [ [txt "E01000001"; Some (Num 11); Some (Num 1);
                     Some (Shape 1); Some (Num 2020)] ] |};
     MedSat.medsat := None |}.

(** A merged frame with a key column and one census column, and two
    variable tables: one without and one with a record for the key. *)
Definition merged : DataFrame :=
  {| columns := ["LSOA21CD"; "c_total"];
     rows := [ [txt "E01000001"; Some (Num 10)] ] |}.

Definition variables_without_key : DataFrame := typed ["c_total"].

Definition variables_with_key : DataFrame := typed ["LSOA21CD"; "c_total"].

(** A scoring that knows only equal names. *)
Definition exact_score (declared candidate : string) : Q :=
  if String.eqb declared candidate then 1%Q else 0%Q.

End Examples.

(** ** Spatial signatures, Transform, and the ONS lookup *)

Module SpatialSignatures.
Import Frame.

(** The two merges of the cell: the signatures as read from the package,
    first with the pen portraits on [type], then with the per-geometry
    table on [id].  The three frames are taken as read. *)
Definition ss_cell (gpkg ss_pen_portraits ss_per_geometry : DataFrame)
    : result DataFrame :=
  with_portraits ← merge_left "type" gpkg ss_pen_portraits;
  merge_left "id" with_portraits ss_per_geometry.

Definition cols_to_keep : list string :=
  ["LSOA21CD"; "LSOA21NM"; "BUA22CD"; "BUA22NM"; "LAD22CD"; "LAD22NM";
   "RGN22CD"; "RGN22NM"; "ObjectId"].

(** [lsoa_lookup = pd.read_csv(url)[cols_to_keep]] *)
Definition lsoa_lookup (csv : DataFrame) : result DataFrame :=
  select cols_to_keep csv.

End SpatialSignatures.

(** ** What a cleaned label looks like *)

Module Labels.
Import Normalizer.

(** Every character of [s] passes the test [p]. *)
Fixpoint all_chars (p : ascii → bool) (s : string) : bool :=
  match s with
  | EmptyString => true
  | String a s' => p a && all_chars p s'
  end.

(** The only white space in [s] is the space character, and no two
    spaces stand side by side.  [after_space] tells that the character
    before was a space. *)
Fixpoint single_spaced_go (after_space : bool) (s : string) : bool :=
  match s with
  | EmptyString => true
  | String a s' =>
      if is_space a
      then Ascii.eqb a " " && negb after_space && single_spaced_go true s'
      else single_spaced_go false s'
  end.

Definition single_spaced (s : string) : bool := single_spaced_go false s.

Definition is_paren (a : ascii) : bool :=
  Ascii.eqb a "(" || Ascii.eqb a ")".

(** What the sheet rules leave no trace of. *)
Definition sheet_clean (a : ascii) : bool :=
  negb (Ascii.eqb a " ") && negb (is_upper a).

Definition environmental_clean (a : ascii) : bool :=
  negb (Ascii.eqb a " ") && negb (is_upper a) && negb (is_paren a).

End Labels.

(** ** The names the metadata cells derive *)

Module Names.
Import Frame Normalizer.

(** [p + s] cell by cell, where it does not raise. *)
Definition prefixed (p : string) (c : cell) : cell :=
  match c with
  | Some (Str x) => Some (Str (p +:+ x))
  | _ => None
  end.

(** A cell a text can be added to: a text or a null. *)
Definition text_or_null (c : cell) : Prop :=
  c = None ∨ ∃ x, c = Some (Str x).

(** The name of an outcome variable from its declared name. *)
Definition outcome_name (c : cell) : cell :=
  match c with
  | Some (Str x) => Some (Str ("o_" +:+ replace "quantitiy" "quantity" x))
  | _ => None
  end.

End Names.

(** ** The names of the chunk files *)

Module ChunkFiles.

(** [f"{n:02d}"]: the decimal digits of [n], with a zero in front when
    that makes fewer than two characters. *)
Definition format_02d (n : Z) : string :=
  let digits := pretty n in
  if (String.length digits <? 2)%nat then "0" +:+ digits else digits.

(** [f"spatial_signatures_{chunk_num:02d}.parquet.gzip"] *)
Definition file_name (chunk_num : Z) : string :=
  "spatial_signatures_" +:+ format_02d chunk_num +:+ ".parquet.gzip".

(** The files of the Load cell by name: [chunk.to_parquet(file_path)]
    for every turn of the loop, in the order written. *)
Definition written {A : Type} (parts : list (Z * list A))
    : list (string * list A) :=
  (λ p, (file_name p.1, p.2)) <$> parts.

End ChunkFiles.

(** ** Extract: fetching the files that are not there yet

    Both Extract cells loop over a list of remote files.  A file whose
    local path exists is skipped; any other is fetched and written.  The
    local files are a map from paths to contents, with the folders in it
    as well; [TMP_PATH] is taken to exist, as the Setup cell makes it. *)

Module Download.

Inductive node : Type :=
  | File (data : string)
  | Folder.

(** [s.split("/")[-1]]: what follows the last slash.  [cur] is what was
    read since the last slash. *)
Fixpoint last_part_go (cur s : string) : string :=
  match s with
  | EmptyString => cur
  | String a s' =>
      if Ascii.eqb a "/" then last_part_go "" s'
      else last_part_go (cur +:+ String a "") s'
  end.

Definition last_part (s : string) : string := last_part_go "" s.

Definition no_slash (a : ascii) : bool := negb (Ascii.eqb a "/").

(** [TMP_PATH / name] for a name without slash: an empty name and the
    name [.] give the folder itself. *)
Definition out_path (tmp_path name : string) : string :=
  if bool_decide (name = "" ∨ name = ".") then tmp_path
  else tmp_path +:+ "/" +:+ name.

Section Loop.
(** The exceptions of the network libraries. *)
Context {E : Type}.

(** What fetching one file does to the local file: it is written in
    full; or it is opened and the transfer breaks, leaving what had
    arrived; or the request fails before the file is opened. *)
Inductive outcome : Type :=
  | Written (data : string)
  | Cut (partial : string) (e : E)
  | NotOpened (e : E).

(** The state of a run: the local files and the remote files asked for
    so far, in order. *)
Definition run_state : Type := gmap string node * list string.

(** The loop of both cells. *)
Fixpoint download (fetch : string → outcome) (tmp_path : string)
    (download_list : list string) (st : run_state)
    : run_state * option E :=
  match download_list with
  | [] => (st, None)
  | f :: rest =>
      let out := out_path tmp_path (last_part f) in
      match st.1 !! out with
      | Some _ => download fetch tmp_path rest st
      | None =>
          match fetch f with
          | Written data =>
              download fetch tmp_path rest
                (<[out := File data]> st.1, st.2 ++ [f])
          | Cut partial e =>
              ((<[out := File partial]> st.1, st.2 ++ [f]), Some e)
          | NotOpened e => ((st.1, st.2 ++ [f]), Some e)
          end
      end
  end.

(** The FTP cell opens the local file and then retrieves into it:
    [ftp.retrbinary] either completes or raises after some blocks. *)
Inductive ftp_reply : Type :=
  | Retrieved (data : string)
  | RetrFailed (partial : string) (e : E).

Definition ftp_download (retrbinary : string → ftp_reply) :=
  download (λ f, match retrbinary f with
                 | Retrieved data => Written data
                 | RetrFailed partial e => Cut partial e
                 end).

(** The CDRC cell asks first, then opens the local file, then reads the
    body: [get] may raise before the file is opened, reading
    [r.content] may raise after. *)
Inductive cdrc_reply : Type :=
  | Body (data : string)
  | ContentFailed (e : E)
  | GetFailed (e : E).

Definition cdrc_download (get : string → cdrc_reply) :=
  download (λ url, match get url with
                   | Body data => Written data
                   | ContentFailed e => Cut "" e
                   | GetFailed e => NotOpened e
                   end).

End Loop.

(** The lists and the folder of the notebook. *)
Definition TMP_PATH : string := "../data/_tmp".

Definition ftp_download_list : list string :=
  [ "point_data/2019_spatial_raw_master.geojson";
    "point_data/2020_spatial_raw_master.geojson";
    "point_data/MedSat Variables.xlsx";
    "auxiliary data/lsoas_regions_mapping.csv" ].

Definition cdrc_download_list : list string :=
  [ "https://data.cdrc.ac.uk/system/files/key.csv";
    "https://data.cdrc.ac.uk/system/files/pen_portraits.json";
    "https://data.cdrc.ac.uk/system/files/per_geometry.csv";
    "https://data.cdrc.ac.uk/system/files/spatial_signatures_GB_clean.gpkg_.zip" ].

End Download.

(** ** More small frames and servers to run the cells on *)

Module Samples.
Import Frame Download Examples.

Definition lookup_csv : DataFrame :=
  {| columns := ["LSOA21CD"; "LAD22CD"; "RGN22CD"; "RGN22NM"];
     rows := [ [txt "E01000001"; txt "E09000001"; txt "E12000007"; txt "London"] ] |}.

(** Two yearly files; only the second has a year column of its own. *)
Definition geojson_2019 : DataFrame :=
  {| columns := ["geography code"; "c_total"; "geometry"];
     rows := [ [txt "E01000001"; Some (Num 10); Some (Shape 1)];
               [txt "E01000002"; Some (Num 20); Some (Shape 2)] ] |}.

Definition geojson_2020 : DataFrame :=
  {| columns := ["geography code"; "year"; "geometry"; "c_total"];
     rows := [ [txt "E01000001"; Some (Num 1999); Some (Shape 1); Some (Num 11)] ] |}.

(** Yearly frames without any key column. *)
Definition keyless : MedSat.state :=
  {| MedSat.lsoa_to_region := lookup;
     MedSat.medsat_2019 :=
       {| columns := ["c_total"; "geometry"; "year"]; rows := [] |};
     MedSat.medsat_2020 :=
       {| columns := ["c_total"; "geometry"; "year"]; rows := [] |};
     MedSat.medsat := None |}.

Definition gpkg : DataFrame :=
  {| columns := ["id"; "type"; "geometry"];
     rows := [ [Some (Num 1); txt "Wild countryside"; Some (Shape 1)];
               [Some (Num 2); txt "Urbanity"; Some (Shape 2)];
               [Some (Num 3); txt "Wild countryside"; Some (Shape 3)] ] |}.

Definition pen_portraits : DataFrame :=
  {| columns := ["type"; "description"];
     rows := [ [txt "Urbanity"; txt "dense and busy"];
               [txt "Wild countryside"; txt "open and empty"] ] |}.

Definition per_geometry : DataFrame :=
  {| columns := ["id"; "area"];
     rows := [ [Some (Num 1); Some (Num 500)];
               [Some (Num 3); Some (Num 700)] ] |}.

Definition declared : DataFrame :=
  {| columns := ["name"; "type"];
     rows := [ [txt "c_total population"; txt "count"];
               [txt "c_percent male"; txt "percent"];
               [None; txt "percent"] ] |}.

Definition census : DataFrame :=
  {| columns := ["LSOA21CD"; "c_total population"; "c_percent males"; "e_no2"];
     rows := [] |}.

(** A matcher that knows only equal names. *)
Definition same_name (n : cell) (candidates : gset string) : cell :=
  match n with
  | Some (Str x) => if bool_decide (x ∈ candidates) then Some (Str x) else None
  | _ => None
  end.

(** Two outcomes sheets: one with a misspelt name and a number among
    its names, one whose names are all numbers. *)
Definition outcomes_sheet : DataFrame :=
  {| columns := ["Unnamed: 0"; "Unnamed: 1"; "Unnamed: 2"; "Unnamed: 3";
                 "Name"; "Type"];
     rows := [ [None; None; None; None;
                txt "quantitiy of prescriptions"; txt "rate"];
               [None; None; None; None; Some (Num 7); txt "rate"] ] |}.

Definition outcomes_sheet_numbered : DataFrame :=
  {| columns := ["Unnamed: 0"; "Unnamed: 1"; "Unnamed: 2"; "Unnamed: 3";
                 "Name"; "Type"];
     rows := [ [None; None; None; None; Some (Num 7); txt "rate"];
               [None; None; None; None; Some (Num 8); txt "rate"] ] |}.

(** The local files after Setup, and two servers: one that sends every
    file, one that breaks off the second yearly file. *)
Definition after_setup : gmap string node := {[ TMP_PATH := Folder ]}.

Definition sends_all (f : string) : @ftp_reply string :=
  Retrieved ("content of " +:+ f).

Definition breaks_off (f : string) : @ftp_reply string :=
  if bool_decide (f = "point_data/2020_spatial_raw_master.geojson")
  then RetrFailed "{" "421 timeout"
  else Retrieved ("content of " +:+ f).

Definition refuses (url : string) : @cdrc_reply string :=
  if bool_decide (url = "https://data.cdrc.ac.uk/system/files/per_geometry.csv")
  then GetFailed "connection refused"
  else Body ("content of " +:+ url).

End Samples.

(** * Properties *)

Section PartitionerFacts.
Import Partitioner.
Context {A : Type}.
Implicit Types (ss : list A) (k n i : Z).

Lemma slice_index_nonneg n i :
  0 ≤ n → 0 ≤ i → slice_index n i = Z.min i n.
Proof. intros Hn Hi. unfold slice_index. destruct (Z.ltb_spec i 0); lia. Qed.

(** Between non-negative bounds [iloc] is a [take] after a [drop]. *)
Lemma iloc_nonneg ss lo hi :
  0 ≤ lo → lo ≤ hi →
  iloc ss lo hi = take (Z.to_nat (hi - lo)) (drop (Z.to_nat lo) ss).
Proof.
  intros Hlo Hhi. unfold iloc.
  rewrite !slice_index_nonneg by lia.
  set (n := Z.of_nat (length ss)).
  destruct (Z.le_gt_cases hi n) as [Hle | Hgt].
  - rewrite !Z.min_l by lia. reflexivity.
  - rewrite (Z.min_r hi) by lia.
    destruct (Z.le_gt_cases lo n) as [Hlo' | Hlo'].
    + rewrite Z.min_l by lia.
      rewrite !take_ge; [reflexivity | |]; rewrite length_drop; lia.
    + rewrite Z.min_r by lia.
      rewrite !drop_ge by lia. by rewrite !take_nil.
Qed.

Lemma chunk_rows ss k i :
  0 < k → 0 ≤ i →
  (chunk ss k i).2 = take (Z.to_nat k) (drop (Z.to_nat (i * k)) ss).
Proof.
  intros Hk Hi. unfold chunk. cbn [snd].
  rewrite iloc_nonneg by nia. f_equal. f_equal. lia.
Qed.

(** The first [n] chunks, glued together, are the first [n * k] rows. *)
Lemma concat_chunks ss k (n : nat) :
  0 < k →
  concat ((λ i, (chunk ss k i).2) <$> seqZ 0 (Z.of_nat n))
  = take (Z.to_nat (Z.of_nat n * k)) ss.
Proof.
  intros Hk. induction n as [|n IH].
  - reflexivity.
  - replace (Z.of_nat (S n)) with (Z.of_nat n + 1) by lia.
    rewrite seqZ_app by lia. rewrite fmap_app, concat_app, IH.
    rewrite seqZ_cons, seqZ_nil by lia.
    rewrite fmap_cons, fmap_nil, concat_cons, concat_nil, app_nil_r, Z.add_0_l.
    rewrite chunk_rows by lia.
    replace (Z.to_nat ((Z.of_nat n + 1) * k))
      with (Z.to_nat (Z.of_nat n * k) + Z.to_nat k)%nat by nia.
    by rewrite take_take_drop.
Qed.

Lemma n_chunks_pos ss k : 0 < k → 0 < n_chunks ss k.
Proof.
  intros Hk. unfold n_chunks.
  pose proof (Z.div_pos (Z.of_nat (length ss)) k). lia.
Qed.

Lemma n_chunks_covers ss k :
  0 < k → Z.of_nat (length ss) < n_chunks ss k * k.
Proof.
  intros Hk. unfold n_chunks.
  pose proof (Z.mul_succ_div_gt (Z.of_nat (length ss)) k Hk). lia.
Qed.

Lemma partition_ok ss k :
  0 < k → partition ss k = Ok (chunk ss k <$> range (n_chunks ss k)).
Proof.
  intros Hk. unfold partition.
  destruct (Z.eqb_spec k 0); [lia | reflexivity].
Qed.

(** The loop writes [len(ss) // chunk_size + 1] files. *)
Lemma partition_count ss k parts :
  0 < k → partition ss k = Ok parts →
  Z.of_nat (length parts) = Z.of_nat (length ss) / k + 1.
Proof.
  intros Hk. rewrite partition_ok by done. intros [= <-].
  rewrite length_fmap. unfold range. rewrite length_seqZ.
  pose proof (n_chunks_pos ss k Hk). unfold n_chunks in *. lia.
Qed.

(** That count is the ceiling of [len / k] exactly when [k] does not
    divide [len]; when it does, the loop writes one file more. *)
Lemma n_chunks_vs_ceiling ss k :
  0 < k →
  n_chunks ss k =
    if Z.of_nat (length ss) mod k =? 0
    then spec_n_partitions (Z.of_nat (length ss)) k + 1
    else spec_n_partitions (Z.of_nat (length ss)) k.
Proof.
  intros Hk. unfold n_chunks, spec_n_partitions.
  set (len := Z.of_nat (length ss)).
  destruct (Z.eqb_spec (len mod k) 0) as [Hm | Hm].
  - rewrite Z.div_opp_l_z by lia. lia.
  - rewrite Z.div_opp_l_nz by lia. lia.
Qed.

(** No chunk has more than [k] rows, and a chunk is short only when the
    rows run out. *)
Lemma chunk_length ss k i :
  0 < k → 0 ≤ i →
  Z.of_nat (length (chunk ss k i).2)
  = Z.min k (Z.max 0 (Z.of_nat (length ss) - i * k)).
Proof.
  intros Hk Hi. rewrite chunk_rows by done.
  rewrite length_take, length_drop. nia.
Qed.

(** When the chunk size divides the row count, the file after the last
    full chunk is written all the same, and it is empty. *)
Lemma partition_exact_multiple ss k parts :
  0 < k → Z.of_nat (length ss) mod k = 0 →
  partition ss k = Ok parts →
  Z.of_nat (length parts) = spec_n_partitions (Z.of_nat (length ss)) k + 1
  ∧ parts !! Z.to_nat (Z.of_nat (length ss) / k)
    = Some (Z.of_nat (length ss) / k + 1, []).
Proof.
  intros Hk Hmod Hparts. split.
  - rewrite (partition_count ss k parts Hk Hparts).
    pose proof (n_chunks_vs_ceiling ss k Hk) as Hn.
    rewrite Hmod in Hn. cbn in Hn. unfold n_chunks in Hn. lia.
  - rewrite partition_ok in Hparts by done. injection Hparts as <-.
    set (q := Z.of_nat (length ss) / k).
    assert (0 ≤ q) as Hq by (apply Z.div_pos; lia).
    unfold range, n_chunks. fold q.
    rewrite list_lookup_fmap, lookup_seqZ_lt by lia.
    cbn [fmap option_fmap option_map]. rewrite Z2Nat.id, Z.add_0_l by lia.
    f_equal. rewrite (surjective_pairing (chunk ss k q)).
    rewrite chunk_rows by lia. cbn [chunk fst]. f_equal.
    rewrite drop_ge; [by rewrite take_nil |].
    pose proof (Z.div_mod (Z.of_nat (length ss)) k ltac:(lia)) as Hdm.
    fold q in Hdm. nia.
Qed.
(** C2: for every row sequence and every positive chunk size the cell
    writes its chunks under the numbers 1, 2, ..., N, and the chunks
    glued together in that order are the rows of the frame, each once
    and in the order of the frame. *)
Theorem partition_concat ss k :
  0 < k →
  ∃ parts, partition ss k = Ok parts
    ∧ parts.*1 = seqZ 1 (Z.of_nat (length parts))
    ∧ concat parts.*2 = ss.
Proof.
  intros Hk. eexists. split; [by apply partition_ok |].
  pose proof (n_chunks_pos ss k Hk) as Hpos.
  pose proof (n_chunks_covers ss k Hk) as Hcov.
  unfold range. split.
  - rewrite length_fmap, length_seqZ, Z2Nat.id by lia.
    rewrite <- list_fmap_compose.
    replace (seqZ 1 (n_chunks ss k)) with (seqZ (1 + 0) (n_chunks ss k))
      by reflexivity.
    rewrite <- fmap_add_seqZ.
    apply list_fmap_ext. intros _ i _. cbn. lia.
  - rewrite <- list_fmap_compose.
    rewrite <- (Z2Nat.id (n_chunks ss k)) by lia.
    change (snd ∘ chunk ss k) with (λ i, (chunk ss k i).2).
    rewrite concat_chunks by done.
    apply take_ge. rewrite Z2Nat.id by lia. lia.
Qed.

End PartitionerFacts.

(** The worked example of the specification: 13,000 rows in chunks of
    6,000 are written as three files of 6,000, 6,000 and 1,000 rows. *)
Lemma partition_13000_by_6000 :
  Partitioner.sizes
    <$> Partitioner.partition (replicate (Z.to_nat 13000) ()) 6000
  = Ok [6000; 6000; 1000]
  ∧ Partitioner.spec_n_partitions 13000 6000 = 3.
Proof. split; vm_compute; reflexivity. Qed.

(** C1: on 12,000 rows in chunks of 6,000 the cell writes three files, of
    6,000, 6,000 and 0 rows, where the ceiling of 12000 / 6000 is two:
    when the chunk size divides the row count, [len // chunk_size + 1]
    is one more than the number of chunks needed and the last file is
    empty. *)
Theorem partition_12000_by_6000 :
  Partitioner.sizes
    <$> Partitioner.partition (replicate (Z.to_nat 12000) ()) 6000
  = Ok [6000; 6000; 0]
  ∧ Partitioner.spec_n_partitions 12000 6000 = 2.
Proof. split; vm_compute; reflexivity. Qed.

(** ** Frames: labels, columns, assignment *)

Section FrameFacts.
Import Frame.
Implicit Types (c : string) (cols : list string) (r : list cell)
  (df : DataFrame).

Lemma bind_Ok_inv {A B : Type} (r : result A) (k : A → result B) b :
  r ≫= k = Ok b → ∃ a, r = Ok a ∧ k a = Ok b.
Proof. destruct r as [a|e]; [eauto | discriminate]. Qed.

Lemma index_of_Some c cols i : index_of c cols = Some i → cols !! i = Some c.
Proof.
  unfold index_of. destruct (list_find _ _) as [[i' c']|] eqn:Hf; [|done].
  intros [= <-]. apply list_find_Some in Hf as (Hl & -> & _). done.
Qed.

Lemma index_of_elem c cols : c ∈ cols → is_Some (index_of c cols).
Proof.
  intros Hin. unfold index_of.
  destruct (list_find _ _) as [[i c']|] eqn:Hf; [by eexists |].
  apply list_find_None in Hf. rewrite Forall_forall in Hf.
  by destruct (Hf c Hin).
Qed.

Lemma index_of_not_elem c cols : c ∉ cols → index_of c cols = None.
Proof.
  intros Hnot. destruct (index_of c cols) as [i|] eqn:Hi; [|done].
  apply index_of_Some in Hi. destruct Hnot. by eapply list_elem_of_lookup_2.
Qed.

(** A row written label by label holds under each label what was written
    for it. *)
Lemma cell_at_fmap (f : string → cell) cols c :
  c ∈ cols → cell_at cols (f <$> cols) c = f c.
Proof.
  intros Hin. unfold cell_at.
  destruct (index_of_elem c cols Hin) as [i Hi]. rewrite Hi. cbn.
  unfold cell_at_pos. rewrite list_lookup_fmap.
  by rewrite (index_of_Some _ _ _ Hi).
Qed.

Lemma cell_at_missing cols r c : c ∉ cols → cell_at cols r c = None.
Proof. intros Hnot. unfold cell_at. by rewrite index_of_not_elem. Qed.

Lemma cell_at_reindex src dst r c :
  c ∈ dst → cell_at dst (reindex src dst r) c = cell_at src r c.
Proof. intros Hin. unfold reindex. by rewrite cell_at_fmap. Qed.

Lemma length_column c df : length (column c df) = len df.
Proof. unfold column, len. by rewrite length_fmap. Qed.

Lemma getitem_column c df : c ∈ columns df → getitem c df = Ok (column c df).
Proof.
  intros Hin. unfold getitem, column, cell_at.
  destruct (index_of_elem _ _ Hin) as [i ->]. reflexivity.
Qed.

Lemma getitem_missing c df : c ∉ columns df → getitem c df = Err (KeyError c).
Proof. intros Hnot. unfold getitem. by rewrite index_of_not_elem. Qed.

Lemma getitem_Ok c df vals :
  getitem c df = Ok vals → c ∈ columns df ∧ vals = column c df.
Proof.
  intros Hget. destruct (decide (c ∈ columns df)) as [Hin | Hnot].
  - rewrite getitem_column in Hget by done. by injection Hget as <-.
  - by rewrite getitem_missing in Hget.
Qed.

Lemma elem_of_columns_setitem c c' vals df :
  c ∈ columns (setitem c' vals df) ↔ c ∈ columns df ∨ c = c'.
Proof.
  unfold setitem. cbn [columns]. case_bool_decide as Hc'.
  - split; [by left |]. intros [? | ->]; done.
  - rewrite elem_of_app, list_elem_of_singleton. done.
Qed.

Lemma len_setitem c vals df :
  length vals = len df → len (setitem c vals df) = len df.
Proof.
  intros Hlen. unfold len, setitem. cbn [rows].
  rewrite length_zip_with. unfold len in Hlen. lia.
Qed.

Lemma column_setitem c c' vals df :
  length vals = len df → c ∈ columns df ∨ c = c' →
  column c (setitem c' vals df)
  = if decide (c = c') then vals else column c df.
Proof.
  intros Hlen Hin.
  assert (c ∈ columns (setitem c' vals df)) as Hin'
    by by apply elem_of_columns_setitem.
  unfold column. unfold setitem in *. cbn [columns rows] in *.
  set (cols := if bool_decide _ then _ else _) in *.
  unfold len in Hlen. revert vals Hlen.
  induction (rows df) as [|r rs IH]; intros [|v vals] Hlen;
    try discriminate; cbn.
  - by destruct (decide _).
  - rewrite cell_at_fmap by done. injection Hlen as Hlen.
    specialize (IH vals Hlen). destruct (decide (c = c')); by f_equal.
Qed.

Lemma getitem_setitem c c' vals df :
  length vals = len df → c ∈ columns df ∨ c = c' →
  getitem c (setitem c' vals df)
  = Ok (if decide (c = c') then vals else column c df).
Proof.
  intros Hlen Hin. rewrite getitem_column by by apply elem_of_columns_setitem.
  by rewrite column_setitem.
Qed.

Lemma length_ffill_from prev (s : list cell) :
  length (ffill_from prev s) = length s.
Proof.
  revert prev. induction s as [|[v|] s IH]; intros prev; cbn;
    by rewrite ?IH.
Qed.

Lemma length_ffill (s : list cell) : length (ffill s) = length s.
Proof. apply length_ffill_from. Qed.

Lemma length_traverse {A B : Type} (f : A → result B) l bs :
  traverse f l = Ok bs → length bs = length l.
Proof.
  revert bs. induction l as [|a l IH]; intros bs; cbn.
  - by intros [= <-].
  - destruct (f a) as [b|]; cbn; [|done].
    destruct (traverse f l) as [bs'|]; cbn; [|done].
    intros [= <-]. cbn. f_equal. by apply IH.
Qed.

Lemma length_radd_str p (s t : list cell) :
  radd_str p s = Ok t → length t = length s.
Proof.
  unfold radd_str. destruct (object_column s); [|done].
  apply length_traverse.
Qed.

Lemma str_map_Ok f (s t : list cell) :
  str_map f s = Ok t → object_column s = true ∧ t = str_cell f <$> s.
Proof.
  unfold str_map. destruct (object_column s); [|done]. by intros [= <-].
Qed.

Lemma length_str_map f (s t : list cell) :
  str_map f s = Ok t → length t = length s.
Proof. intros Hs. apply str_map_Ok in Hs as [_ ->]. by rewrite length_fmap. Qed.

(** The cells of a column of type object stay one after [.str.f()]. *)
Lemma object_column_str_cell f (s : list cell) :
  object_column (str_cell f <$> s) = object_column s.
Proof.
  assert (has_text (str_cell f <$> s) = has_text s) as Htext.
  { unfold has_text. induction s as [|c s IH]; [done |].
    rewrite fmap_cons. cbn [existsb]. rewrite IH.
    by destruct c as [[x|z|g]|]. }
  unfold object_column. rewrite Htext. by destruct s.
Qed.

End FrameFacts.

(** ** Frames: concatenation, selection, records *)

Section FrameConcatFacts.
Import Frame.
Implicit Types (c : string) (cols : list string) (r : list cell)
  (df : DataFrame) (dfs : list DataFrame).


Lemma elem_of_concat_columns_from acc dfs c :
  c ∈ foldl (λ acc df, acc ++ list_difference (columns df) acc) acc dfs
  ↔ c ∈ acc ∨ ∃ df, df ∈ dfs ∧ c ∈ columns df.
Proof.
  revert acc. induction dfs as [|df dfs IH]; intros acc; cbn.
  - split; [by left |]. intros [? | (df & Hdf & _)]; [done |].
    by apply not_elem_of_nil in Hdf.
  - rewrite IH, elem_of_app, list_elem_of_difference. split.
    + intros [[? | [? ?]] | (df' & Hdf' & Hc)].
      * by left.
      * right. exists df. split; [left | done].
      * right. exists df'. split; [by right | done].
    + intros [? | (df' & Hdf' & Hc)]; [by left; left |].
      apply elem_of_cons in Hdf' as [-> | Hdf'].
      * destruct (decide (c ∈ acc)); [by left; left | by left; right].
      * right. eauto.
Qed.

Lemma elem_of_concat_columns dfs c :
  c ∈ concat_columns dfs ↔ ∃ df, df ∈ dfs ∧ c ∈ columns df.
Proof.
  unfold concat_columns. rewrite elem_of_concat_columns_from. split.
  - intros [Hnil | ?]; [by apply not_elem_of_nil in Hnil | done].
  - by right.
Qed.

Lemma rows_pd_concat dfs :
  rows (pd_concat dfs)
  = mbind (λ df, fmap (reindex (columns df) (concat_columns dfs)) (rows df)) dfs.
Proof. reflexivity. Qed.

(** A row of one of the frames is in the concatenation, laid out for the
    columns of the whole. *)
Lemma elem_of_rows_pd_concat dfs df r :
  df ∈ dfs → r ∈ rows df →
  reindex (columns df) (columns (pd_concat dfs)) r ∈ rows (pd_concat dfs).
Proof.
  intros Hdf Hr. rewrite rows_pd_concat. apply list_elem_of_bind.
  exists df. split; [|done]. apply list_elem_of_fmap. eauto.
Qed.

Lemma column_pd_concat_2 df1 df2 c :
  c ∈ columns df1 →
  column c (pd_concat [df1; df2])
  = column c df1 ++ ((λ r, cell_at (columns df2) r c) <$> rows df2).
Proof.
  intros Hin.
  assert (c ∈ concat_columns [df1; df2]) as Hc.
  { apply elem_of_concat_columns. exists df1. split; [left | done]. }
  unfold column. rewrite rows_pd_concat. cbn [columns pd_concat].
  cbn [mbind list_bind]. rewrite app_nil_r, fmap_app, <- !list_fmap_compose.
  f_equal; apply list_fmap_ext; intros i r _; unfold compose;
    by rewrite cell_at_reindex.
Qed.

Lemma column_from_records cols records c :
  c ∈ cols →
  column c (from_records cols records) = (λ d, d !! c) <$> records.
Proof.
  intros Hin. unfold column, from_records. cbn [columns rows].
  rewrite <- list_fmap_compose. apply list_fmap_ext. intros i d _. cbn.
  by rewrite cell_at_fmap.
Qed.

Lemma column_loc0_set d df c :
  c ∈ columns df →
  column c (loc0_set d df) = d !! c :: tail (column c df).
Proof.
  intros Hin. unfold column, loc0_set. cbn [columns rows].
  destruct (rows df) as [|r rs]; cbn; by rewrite cell_at_fmap.
Qed.

Lemma select_Ok cs df df' :
  select cs df = Ok df' →
  df' = {| columns := cs; rows := reindex (columns df) cs <$> rows df |}.
Proof.
  unfold select. destruct (list_find _ _) as [[? ?]|]; [done |].
  by intros [= <-].
Qed.

Lemma rows_assign_scalar c v df :
  rows (assign_scalar c v df)
  = (λ r, (λ c', if decide (c' = c) then Some v
                 else cell_at (columns df) r c')
          <$> columns (assign_scalar c v df)) <$> rows df.
Proof.
  unfold assign_scalar, setitem, len. cbn [rows columns].
  set (cols := if bool_decide _ then _ else _).
  induction (rows df) as [|r rs IH]; [done |].
  cbn. by rewrite IH.
Qed.

Lemma elem_of_column c df (x : cell) :
  x ∈ column c df → ∃ r, r ∈ rows df ∧ cell_at (columns df) r c = x.
Proof.
  unfold column. intros Hx. apply list_elem_of_fmap in Hx as (r & -> & Hr).
  eauto.
Qed.

End FrameConcatFacts.

(** ** The merge *)

Section MergerFacts.
Import Frame.
Implicit Types (l r : list cell) (rs : list (list cell)) (k : cell).

Lemma matches_cons j k r rs :
  matches j k (r :: rs)
  = if decide (cell_at_pos j r = k) then r :: matches j k rs else matches j k rs.
Proof. unfold matches. rewrite filter_cons. reflexivity. Qed.

Lemma elem_of_matches j k r rs :
  r ∈ matches j k rs ↔ cell_at_pos j r = k ∧ r ∈ rs.
Proof. unfold matches. by rewrite list_elem_of_filter. Qed.

(** With the keys of the right rows pairwise distinct, a key has at most
    one partner. *)
Lemma matches_unique j k rs r ms :
  NoDup (cell_at_pos j <$> rs) → matches j k rs = r :: ms → ms = [].
Proof.
  induction rs as [|r0 rs IH]; intros Hnd Hm.
  - discriminate.
  - rewrite fmap_cons in Hnd. apply NoDup_cons in Hnd as [Hnotin Hnd].
    rewrite matches_cons in Hm. destruct (decide _) as [Hk | Hk].
    + injection Hm as -> <-.
      destruct (matches j k rs) as [|r' ms'] eqn:Hrest; [reflexivity |].
      exfalso. apply Hnotin.
      assert (r' ∈ matches j k rs) as Hin by (rewrite Hrest; left).
      apply elem_of_matches in Hin as [Hk' Hin].
      rewrite Hk, <- Hk'. apply list_elem_of_fmap. eauto.
    + eauto.
Qed.

Lemma matches_nil j k rs :
  matches j k rs = [] ↔ ∀ r, r ∈ rs → cell_at_pos j r ≠ k.
Proof.
  split.
  - intros Hm r Hin Hk.
    assert (r ∈ matches j k rs) as Hr by (apply elem_of_matches; done).
    rewrite Hm in Hr. by apply not_elem_of_nil in Hr.
  - intros Hall. destruct (matches j k rs) as [|r ms] eqn:Hm; [done |].
    assert (r ∈ matches j k rs) as Hr by (rewrite Hm; left).
    apply elem_of_matches in Hr as [Hk Hin]. by destruct (Hall r Hin).
Qed.

Lemma merge_row_unique i j width rs l :
  NoDup (cell_at_pos j <$> rs) →
  ∃ ext, merge_row i j width rs l = [l ++ ext] ∧ lookup_part i j width rs l ext.
Proof.
  intros Hnd. unfold merge_row.
  destruct (matches j (cell_at_pos i l) rs) as [|r ms] eqn:Hm.
  - eexists. split; [reflexivity |]. right. split; [|done].
    by apply matches_nil.
  - pose proof (matches_unique _ _ _ _ _ Hnd Hm) as ->.
    eexists. split; [reflexivity |]. left. exists r.
    assert (r ∈ matches j (cell_at_pos i l) rs) as Hr by (rewrite Hm; left).
    apply elem_of_matches in Hr as [Hk Hin]. done.
Qed.

Lemma merge_rows_unique i j width rs (ls : list (list cell)) :
  NoDup (cell_at_pos j <$> rs) →
  Forall2 (λ l o, ∃ ext, o = l ++ ext ∧ lookup_part i j width rs l ext)
    ls (ls ≫= merge_row i j width rs).
Proof.
  intros Hnd. induction ls as [|l ls IH]; [constructor |].
  rewrite bind_cons.
  destruct (merge_row_unique i j width rs l Hnd) as (ext & -> & Hext).
  constructor; eauto.
Qed.

Lemma merge_row_length i j width rs l :
  length (merge_row i j width rs l)
  = Nat.max 1 (length (matches j (cell_at_pos i l) rs)).
Proof.
  unfold merge_row. destruct (matches _ _ _); [reflexivity |].
  rewrite length_fmap. cbn [length]. lia.
Qed.

(** The merge of two frames that both have the key. *)
Lemma merge_left_present key (left right : DataFrame) i j :
  index_of key (columns left) = Some i →
  index_of key (columns right) = Some j →
  merge_left key left right
  = if keys_clash (cell_at_pos i <$> rows left) (cell_at_pos j <$> rows right)
    then Err ValueError
    else if suffix_clash (columns left) (delete j (columns right))
    then Err MergeError
    else Ok {| columns := merge_labels (columns left) (delete j (columns right));
               rows := rows left
                       ≫= merge_row i j (length (delete j (columns right)))
                            (rows right) |}.
Proof. intros Hi Hj. unfold merge_left. by rewrite Hi, Hj. Qed.

Lemma merge_left_returns key (left right : DataFrame) i j :
  index_of key (columns left) = Some i →
  index_of key (columns right) = Some j →
  keys_clash (cell_at_pos i <$> rows left) (cell_at_pos j <$> rows right)
  = false →
  suffix_clash (columns left) (delete j (columns right)) = false →
  merge_left key left right
  = Ok {| columns := merge_labels (columns left) (delete j (columns right));
          rows := rows left
                  ≫= merge_row i j (length (delete j (columns right)))
                       (rows right) |}.
Proof.
  intros Hi Hj Hkeys Hlabels.
  by rewrite (merge_left_present _ _ _ _ _ Hi Hj), Hkeys, Hlabels.
Qed.

(** What a merge that returns has done. *)
Lemma merge_left_Ok key (left right out : DataFrame) :
  merge_left key left right = Ok out →
  ∃ i j, index_of key (columns left) = Some i
    ∧ index_of key (columns right) = Some j
    ∧ keys_clash (cell_at_pos i <$> rows left) (cell_at_pos j <$> rows right)
      = false
    ∧ suffix_clash (columns left) (delete j (columns right)) = false
    ∧ columns out = merge_labels (columns left) (delete j (columns right))
    ∧ rows out = rows left
                 ≫= merge_row i j (length (delete j (columns right)))
                      (rows right).
Proof.
  unfold merge_left.
  destruct (index_of key (columns left)) as [i|]; [|done].
  destruct (index_of key (columns right)) as [j|]; [|done].
  destruct (keys_clash _ _) eqn:Hkeys; [done |].
  destruct (suffix_clash _ _) eqn:Hlabels; [done |].
  intros [= <-]. exists i, j. done.
Qed.






End MergerFacts.

Section MergerExamples.
Import Frame.





End MergerExamples.

(** ** The schema assertion and the run of the data cells *)

Section DataCellsFacts.
Import Frame MedSat.

Lemma symmetric_difference_empty {K : Type} {HE : EqDecision K}
    {HC : Countable K} (a b : gset K) :
  symmetric_difference a b = ∅ ↔ a = b.
Proof.
  unfold symmetric_difference. split.
  - intros He. apply set_eq. intros x.
    assert (x ∉ (a ∖ b) ∪ (b ∖ a)) as Hx by (rewrite He; apply not_elem_of_empty).
    set_unfold. destruct (decide (x ∈ a)), (decide (x ∈ b)); tauto.
  - intros ->. apply set_eq. intros x. set_unfold. tauto.
Qed.

Lemma schema_assert_passes st :
  column_set (medsat_2019 st) = column_set (medsat_2020 st) →
  schema_assert st = Ok st.
Proof.
  intros Heq. unfold schema_assert.
  destruct (decide _) as [|Hne]; [reflexivity |].
  exfalso. apply Hne. apply size_empty_iff.
  apply leibniz_equiv_iff. by apply symmetric_difference_empty.
Qed.

Lemma schema_assert_raises st :
  column_set (medsat_2019 st) ≠ column_set (medsat_2020 st) →
  schema_assert st
  = Err (AssertionError "Columns do not match between Medsat Dataset Years").
Proof.
  intros Hne. unfold schema_assert.
  destruct (decide _) as [Hsize|]; [|reflexivity].
  exfalso. apply Hne. apply symmetric_difference_empty.
  apply leibniz_equiv_iff. by apply size_empty_iff.
Qed.

(** C6: when the column sets of the two yearly frames differ, the run of
    the data cells ends at the assertion, with its error and message; the
    cell that concatenates and merges is not run, and the variables are
    left as they were, [medsat] among them. *)
Theorem schema_mismatch_aborts
    (sort_values : list string → DataFrame → result DataFrame)
    (make_valid : cell → cell) st :
  column_set (medsat_2019 st) ≠ column_set (medsat_2020 st) →
  run (data_cells sort_values make_valid) st
  = (st, Some (AssertionError "Columns do not match between Medsat Dataset Years")).
Proof.
  intros Hne. unfold data_cells. cbn [run].
  by rewrite schema_assert_raises.
Qed.

(** With equal column sets the run goes on to the merge cell. *)
Lemma schema_match_continues
    (sort_values : list string → DataFrame → result DataFrame)
    (make_valid : cell → cell) st :
  column_set (medsat_2019 st) = column_set (medsat_2020 st) →
  run (data_cells sort_values make_valid) st
  = match medsat_cell sort_values make_valid st with
    | Ok st' => (st', None)
    | Err e => (st, Some e)
    end.
Proof.
  intros Heq. unfold data_cells. cbn [run].
  rewrite schema_assert_passes by done. by destruct (medsat_cell _ _ _).
Qed.

End DataCellsFacts.

(** ** The gap check *)

Section GapFacts.
Import Frame MedSat.

(** C7, as the notebook has it: the check knows no key columns.  When
    every column of the merged frame, key columns included, is the
    resolved name of a record, and every record resolves to a column of
    the frame, the symmetric difference is empty. *)
Theorem gap_check_empty medsat variables names :
  getitem "medsat_name" variables = Ok names →
  (∀ c, c ∈ columns medsat → Some (Str c) ∈ names) →
  (∀ n, n ∈ names → ∃ c, c ∈ columns medsat ∧ n = Some (Str c)) →
  gap_check medsat variables = Ok ∅.
Proof.
  intros Hget Hcols Hnames. unfold gap_check. rewrite Hget. cbn.
  f_equal. apply symmetric_difference_empty. apply set_eq. intros x.
  rewrite !elem_of_list_to_set, list_elem_of_fmap. split.
  - intros (c & -> & Hc). by apply Hcols.
  - intros Hx. destruct (Hnames x Hx) as (c & Hc & ->). eauto.
Qed.

End GapFacts.

(** ** Forward fill *)

Section FillFacts.
Import Frame.
Implicit Types (s : list cell) (c : cell).

Lemma ffill_from_lookup prev s i :
  ffill_from prev s !! i
  = (λ c, match c with
          | Some v => Some v
          | None => match spec_nearest_preceding s i with
                    | Some v => Some v
                    | None => prev
                    end
          end) <$> s !! i.
Proof.
  unfold spec_nearest_preceding.
  revert prev i. induction s as [|c s IH]; intros prev i.
  - reflexivity.
  - destruct i as [|i].
    + destruct c; reflexivity.
    + destruct c as [v|]; cbn [ffill_from]; rewrite !lookup_cons, IH;
        cbn [take omap]; destruct (s !! i) as [[w|]|]; cbn; try reflexivity.
      rewrite last_cons. by destruct (last _).
Qed.

(** Every cell of the filled column: a value stays, a null takes the
    nearest value above it, and stays null when there is none. *)
Lemma ffill_lookup s i :
  ffill s !! i
  = (λ c, match c with
          | Some v => Some v
          | None => spec_nearest_preceding s i
          end) <$> s !! i.
Proof.
  unfold ffill. rewrite ffill_from_lookup.
  destruct (s !! i) as [[v|]|]; cbn; try reflexivity.
  by destruct (spec_nearest_preceding s i).
Qed.

Lemma ffill_from_some v s : None ∉ ffill_from (Some v) s.
Proof.
  revert v. induction s as [|[w|] s IH]; intros v; cbn.
  - apply not_elem_of_nil.
  - rewrite not_elem_of_cons. split; [done | apply IH].
  - rewrite not_elem_of_cons. split; [done | apply IH].
Qed.

(** A null is left after the fill exactly when the column starts with
    one. *)
Lemma ffill_null_iff s : None ∈ ffill s ↔ head s = Some None.
Proof.
  unfold ffill. destruct s as [|[v|] s]; cbn.
  - split; [intros H; by apply not_elem_of_nil in H | discriminate].
  - split; [|discriminate]. intros Hin. exfalso.
    apply elem_of_cons in Hin as [|Hin]; [discriminate |].
    by apply ffill_from_some in Hin.
  - split; [done |]. intros _. left.
Qed.

End FillFacts.

Section FillCellsFacts.
Import Frame MedSat Normalizer.

Lemma ffill_forward_filled s : forward_filled s (ffill s).
Proof.
  split; [apply length_ffill |].
  intros i c Hi. rewrite ffill_lookup. by rewrite Hi.
Qed.

(** A null at the top of a column is still there after the fill. *)
Lemma ffill_head (s : list cell) :
  head s = Some None → head (ffill s) = Some None.
Proof. by destruct s as [|[v|] s]. Qed.

Lemma ffill_from_Forall (P : cell → Prop) prev (s : list cell) :
  P prev → Forall P s → Forall P (ffill_from prev s).
Proof.
  revert prev. induction s as [|[v|] s IH]; intros prev Hp Hs;
    cbn [ffill_from]; inversion Hs; subst; constructor; auto.
Qed.

Lemma numbers_or_nulls_exact (s : list cell) :
  Forall exact_or_null s → numbers_or_nulls s = true.
Proof.
  unfold numbers_or_nulls.
  induction 1 as [|c s [-> | (z & -> & _)] _ IH]; cbn; by rewrite ?IH.
Qed.

Lemma cast_float_exact (s : list cell) :
  Forall exact_or_null s → cast_float <$> s = s.
Proof.
  induction 1 as [|c s Hc _ IH]; [done |]. rewrite fmap_cons, IH. f_equal.
  destruct Hc as [-> | (z & -> & Hz)]; [done |].
  assert (int64_min ≤ - 2 ^ 53 ∧ 2 ^ 53 ≤ int64_max) as [Hmin Hmax]
    by (split; by vm_compute).
  unfold cast_float, in_int64.
  assert ((int64_min <=? z) = true) as -> by (apply Z.leb_le; lia).
  by assert ((z <=? int64_max) = true) as -> by (apply Z.leb_le; lia).
Qed.

(** The cast after the fill, on a column of such numbers and nulls:
    it raises exactly when the column starts with a null, and changes
    nothing otherwise. *)
Lemma astype_int_ffill (s : list cell) :
  Forall exact_or_null s →
  astype_int (ffill s)
  = if decide (head s = Some None) then Err IntCastingNaNError
    else Ok (ffill s).
Proof.
  intros Hs.
  assert (Forall exact_or_null (ffill s)) as Hf
    by (apply ffill_from_Forall; [by left | done]).
  unfold astype_int.
  rewrite numbers_or_nulls_exact, cast_float_exact by done.
  pose proof (ffill_null_iff s) as Hiff.
  case_bool_decide; destruct (decide _); tauto.
Qed.

Lemma length_astype_int (s t : list cell) :
  astype_int s = Ok t → length t = length s.
Proof.
  unfold astype_int. destruct (numbers_or_nulls s).
  - case_bool_decide; [done |]. intros [= <-]. by rewrite length_fmap.
  - apply length_traverse.
Qed.

End FillCellsFacts.

(** ** The auxiliary sheet and the catalogue *)

Section CatalogueFacts.
Import Frame MedSat Examples.

Lemma auxiliary_cell_names sheet aux :
  auxiliary_cell sheet = Ok aux →
  "medsat_name" ∈ columns aux
  ∧ ∃ name, getitem "name" (auxiliary_labelled sheet) = Ok name
      ∧ column "medsat_name" aux
        = txt "LSOA21CD" :: tail name
          ++ [txt "RGN22CD"; txt "RGN22NM"; txt "year"].
Proof.
  unfold auxiliary_cell. set (df0 := auxiliary_labelled sheet).
  intros Hcell. apply bind_Ok_inv in Hcell as (name & Hname & Hcell).
  injection Hcell as <-.
  pose proof Hname as Hname'. apply getitem_Ok in Hname' as [Hin ->].
  set (name := column "name" df0) in *.
  set (df1 := setitem "medsat_name" name df0).
  assert (length name = len df0) as Hlen by apply length_column.
  assert ("medsat_name" ∈ columns df1) as Hin1
    by (apply elem_of_columns_setitem; by right).
  assert (column "medsat_name" df1 = name) as Hcol1.
  { unfold df1. rewrite column_setitem by auto. by rewrite decide_True. }
  set (df2 := loc0_set lsoa_record df1).
  assert ("medsat_name" ∈ columns df2) as Hin2 by exact Hin1.
  split.
  - change (columns (pd_concat [df2; new_fields]))
      with (concat_columns [df2; new_fields]).
    apply elem_of_concat_columns. exists df2. split; [left | done].
  - exists name. split; [done |].
    rewrite column_pd_concat_2 by done.
    unfold df2. rewrite column_loc0_set by done. rewrite Hcol1.
    reflexivity.
Qed.

Lemma category_part_rows cols category df part x c :
  category_part cols category df = Ok part →
  c ∈ cols → c ≠ "category" → x ∈ column c df →
  ∃ r, r ∈ rows part
    ∧ cell_at (columns part) r c = x
    ∧ cell_at (columns part) r "category" = Some (Str category)
    ∧ c ∈ columns part ∧ "category" ∈ columns part.
Proof.
  unfold category_part. intros Hpart Hc Hne Hx.
  apply bind_Ok_inv in Hpart as (sel & Hsel & Hpart).
  injection Hpart as <-. apply select_Ok in Hsel as ->.
  set (sel := {| columns := cols; rows := _ |}).
  apply elem_of_column in Hx as (r0 & Hr0 & Hx).
  assert (c ∈ columns (assign_scalar "category" (Str category) sel)) as Hc'.
  { apply elem_of_columns_setitem. by left. }
  assert ("category" ∈ columns (assign_scalar "category" (Str category) sel))
    as Hcat by (apply elem_of_columns_setitem; by right).
  eexists. split; [|split; [|split; [|done]]].
  - rewrite rows_assign_scalar. apply list_elem_of_fmap. eexists.
    split; [reflexivity |]. unfold sel. cbn [rows].
    apply list_elem_of_fmap. eauto.
  - rewrite cell_at_fmap by done. rewrite decide_False by done.
    unfold sel. cbn [columns]. by rewrite cell_at_reindex.
  - rewrite cell_at_fmap by done. by rewrite decide_True.
Qed.

Lemma variables_cell_auxiliary s e o aux vars x :
  variables_cell s e o aux = Ok vars →
  x ∈ column "medsat_name" aux →
  ∃ r, r ∈ rows vars
    ∧ cell_at (columns vars) r "medsat_name" = x
    ∧ cell_at (columns vars) r "category" = Some (Str "auxiliary").
Proof.
  unfold variables_cell. intros Hvars Hx.
  apply bind_Ok_inv in Hvars as (s' & _ & Hvars).
  apply bind_Ok_inv in Hvars as (e' & _ & Hvars).
  apply bind_Ok_inv in Hvars as (o' & _ & Hvars).
  apply bind_Ok_inv in Hvars as (a' & Ha & Hvars).
  injection Hvars as <-.
  destruct (category_part_rows _ _ _ _ x "medsat_name" Ha)
    as (r & Hr & Hname & Hcat & Hin1 & Hin2); [left | done | done |].
  assert (a' ∈ [s'; e'; o'; a']) as Hmem by (do 3 right; left).
  exists (reindex (columns a') (columns (pd_concat [s'; e'; o'; a'])) r).
  split; [by apply elem_of_rows_pd_concat |].
  split.
  - rewrite cell_at_reindex; [done |].
    apply elem_of_concat_columns. eauto.
  - rewrite cell_at_reindex; [done |].
    apply elem_of_concat_columns. eauto.
Qed.

(** C10: whenever the auxiliary cell and the cell of the variable table
    run through, the names of the auxiliary frame are [LSOA21CD] in the
    first row, whatever name the sheet had there, then the names of the
    other rows of the sheet, then [RGN22CD], [RGN22NM] and [year]; and
    the variable table has, for each of these four names, a record of
    category auxiliary with that name. *)
Theorem auxiliary_keys_in_catalogue sheet aux s e o vars :
  auxiliary_cell sheet = Ok aux →
  variables_cell s e o aux = Ok vars →
  (∃ name, getitem "name" (auxiliary_labelled sheet) = Ok name
     ∧ getitem "medsat_name" aux
       = Ok (txt "LSOA21CD" :: tail name
             ++ [txt "RGN22CD"; txt "RGN22NM"; txt "year"]))
  ∧ ∀ x, x ∈ ["LSOA21CD"; "RGN22CD"; "RGN22NM"; "year"] →
      ∃ r, r ∈ rows vars
        ∧ cell_at (columns vars) r "medsat_name" = Some (Str x)
        ∧ cell_at (columns vars) r "category" = Some (Str "auxiliary").
Proof.
  intros Haux Hvars.
  destruct (auxiliary_cell_names sheet aux Haux) as (Hin & name & Hname & Hcol).
  split.
  - exists name. split; [done |]. rewrite getitem_column by done.
    by rewrite Hcol.
  - intros x Hx. apply (variables_cell_auxiliary s e o aux vars); [done |].
    rewrite Hcol. unfold txt.
    rewrite !elem_of_cons in Hx. rewrite elem_of_cons, elem_of_app.
    destruct Hx as [-> | [-> | [-> | [-> | Hx]]]].
    + by left.
    + right. right. left.
    + right. right. right. left.
    + right. right. do 2 right. left.
    + by apply not_elem_of_nil in Hx.
Qed.

End CatalogueFacts.

(** ** Cleaning of labels *)

Section NormalizerFacts.
Import Normalizer.

Lemma append_cons a (s t : string) : String a s +:+ t = String a (s +:+ t).
Proof. reflexivity. Qed.

Lemma append_nil_l (t : string) : "" +:+ t = t.
Proof. reflexivity. Qed.

Lemma append_nil_r (s : string) : s +:+ "" = s.
Proof.
  induction s as [|a s IH]; [done |]. by rewrite append_cons, IH.
Qed.

Lemma append_assoc (s t u : string) : (s +:+ t) +:+ u = s +:+ (t +:+ u).
Proof.
  induction s as [|a s IH]; [done |]. by rewrite !append_cons, IH.
Qed.

Lemma per_char_app h s t :
  per_char h (s +:+ t) = per_char h s +:+ per_char h t.
Proof.
  induction s as [|a s IH]; [done |].
  rewrite append_cons. cbn [per_char]. by rewrite IH, append_assoc.
Qed.

Lemma per_char_ext h g s : (∀ a, h a = g a) → per_char h s = per_char g s.
Proof. intros Hext. induction s as [|a s IH]; cbn; by rewrite ?Hext, ?IH. Qed.

Lemma per_char_compose h g s :
  per_char h (per_char g s) = per_char (λ a, per_char h (g a)) s.
Proof.
  induction s as [|a s IH]; cbn; [done |]. by rewrite per_char_app, IH.
Qed.

Lemma lower_per_char s : lower s = per_char (λ a, String (lower_char a) "") s.
Proof.
  induction s as [|a s IH]; [done |].
  cbn [lower per_char]. by rewrite IH.
Qed.

(** Replacing a one-character text looks at one character at a time. *)
Lemma replace_per_char (old : ascii) new s :
  replace (String old "") new s
  = per_char (λ a, if decide (a = old) then new else String a "") s.
Proof.
  unfold replace. induction s as [|a s IH]; [done |].
  cbn [replace_go per_char String.prefix String.length Nat.sub].
  destruct (ascii_dec old a) as [-> | Hne].
  - rewrite decide_True by done.
    destruct s; cbn [String.prefix]; by rewrite IH.
  - rewrite decide_False by done. by rewrite IH, append_cons.
Qed.

Lemma clean_sheet_label_per_char s :
  clean_sheet_label s = per_char sheet_char s.
Proof.
  unfold clean_sheet_label.
  rewrite replace_per_char, lower_per_char, per_char_compose.
  apply per_char_ext. intros a. unfold sheet_char, clean_sheet_label.
  by rewrite replace_per_char, lower_per_char.
Qed.

Lemma clean_environmental_label_per_char s :
  clean_environmental_label s = per_char environmental_char s.
Proof.
  unfold clean_environmental_label.
  rewrite !replace_per_char, lower_per_char, !per_char_compose.
  apply per_char_ext. intros a.
  unfold environmental_char, clean_environmental_label.
  rewrite !replace_per_char, lower_per_char. cbn [per_char].
  rewrite !append_nil_r, per_char_compose.
  cbn [per_char]. by rewrite append_nil_r.
Qed.

Lemma sheet_char_fixed a : clean_sheet_label (sheet_char a) = sheet_char a.
Proof.
  destruct a as [[] [] [] [] [] [] [] []]; vm_compute; reflexivity.
Qed.

Lemma environmental_char_fixed a :
  clean_environmental_label (environmental_char a) = environmental_char a.
Proof.
  destruct a as [[] [] [] [] [] [] [] []]; vm_compute; reflexivity.
Qed.

Lemma clean_sheet_label_idempotent s :
  clean_sheet_label (clean_sheet_label s) = clean_sheet_label s.
Proof.
  rewrite (clean_sheet_label_per_char s).
  rewrite clean_sheet_label_per_char, per_char_compose.
  apply per_char_ext. intros a.
  rewrite <- clean_sheet_label_per_char. apply sheet_char_fixed.
Qed.

Lemma clean_environmental_label_idempotent s :
  clean_environmental_label (clean_environmental_label s)
  = clean_environmental_label s.
Proof.
  rewrite (clean_environmental_label_per_char s).
  rewrite clean_environmental_label_per_char, per_char_compose.
  apply per_char_ext. intros a.
  rewrite <- clean_environmental_label_per_char.
  apply environmental_char_fixed.
Qed.

Lemma re_sub_ws_go_idempotent in_run s :
  re_sub_ws_go in_run (re_sub_ws_go in_run s) = re_sub_ws_go in_run s.
Proof.
  revert in_run. induction s as [|a s IH]; intros in_run; [done |].
  cbn [re_sub_ws_go]. destruct (is_space a) eqn:Ha.
  - destruct in_run; [apply IH |].
    cbn [re_sub_ws_go]. change (is_space " ") with true. cbn iota.
    by rewrite IH.
  - cbn [re_sub_ws_go]. rewrite Ha. by rewrite IH.
Qed.

Lemma clean_data_label_idempotent s :
  clean_data_label (clean_data_label s) = clean_data_label s.
Proof. apply re_sub_ws_go_idempotent. Qed.

(** C5, as the notebook has it: there is no single normalizer.  Sheet
    labels are lower-cased and have each space replaced by an underscore
    (the environmental sheet also loses its parentheses); the labels of
    the merged data have each run of white space collapsed to a space and
    nothing else.  No rule trims, and the sheet rules do not collapse
    runs.  Each rule is idempotent; on the label of the example the sheet
    rules give [household__income_] and the data rule gives
    [Household Income ]. *)
Theorem label_rules_idempotent :
  (∀ c, clean_sheet_label (clean_sheet_label c) = clean_sheet_label c)
  ∧ (∀ c, clean_environmental_label (clean_environmental_label c)
          = clean_environmental_label c)
  ∧ (∀ c, clean_data_label (clean_data_label c) = clean_data_label c)
  ∧ clean_sheet_label "Household  Income " = "household__income_"
  ∧ clean_environmental_label "Household  Income " = "household__income_"
  ∧ clean_data_label "Household  Income " = "Household Income ".
Proof.
  split; [exact clean_sheet_label_idempotent |].
  split; [exact clean_environmental_label_idempotent |].
  split; [exact clean_data_label_idempotent |].
  repeat split; reflexivity.
Qed.

(** C5 fails on the notebook: on the label of the example the five rules
    of the specification give [household_income]; no rule of the
    notebook does, nor does the sheet rule applied after the data
    rule. *)
Lemma label_rules_differ_from_spec :
  spec_normalize "Household  Income " = "household_income"
  ∧ clean_sheet_label "Household  Income " ≠ "household_income"
  ∧ clean_environmental_label "Household  Income " ≠ "household_income"
  ∧ clean_data_label "Household  Income " ≠ "household_income"
  ∧ clean_environmental_label (clean_data_label "Household  Income ")
    ≠ "household_income".
Proof. repeat split; vm_compute; congruence. Qed.

End NormalizerFacts.

(** ** The matcher *)

Section MatcherFacts.
Import Matcher.

(** C9: for every declared name with an entry in the override table, with
    any scoring function, threshold and set of candidates, the matcher
    returns the forced column as it stands in the table, and no candidate
    is scored. *)
Theorem override_short_circuits
    (score : string → string → Q) (threshold : Q)
    (overrides : gmap string string) declared forced candidates :
  overrides !! declared = Some forced →
  matched (match_ score threshold overrides declared candidates)
    = Some (forced, None)
  ∧ scored (match_ score threshold overrides declared candidates) = []
  ∧ tie (match_ score threshold overrides declared candidates) = false.
Proof. intros Hforced. unfold match_. by rewrite Hforced. Qed.

(** Without an entry the scoring pass decides, and every candidate is
    scored. *)
Lemma no_override_scores
    (score : string → string → Q) (threshold : Q)
    (overrides : gmap string string) declared candidates :
  overrides !! declared = None →
  match_ score threshold overrides declared candidates
  = fuzzy_pass score threshold declared (elements candidates).
Proof. intros Hnone. unfold match_. by rewrite Hnone. Qed.

End MatcherFacts.

(** ** The cells on the example frames *)

Section Runs.
Import Frame MedSat Matcher Examples.

Lemma partition_concat_witness :
  (0 < 2)%Z
  ∧ ∃ parts, Partitioner.partition [1; 2; 3; 4; 5]%nat 2 = Ok parts
      ∧ parts.*1 = seqZ 1 (Z.of_nat (length parts))
      ∧ concat parts.*2 = [1; 2; 3; 4; 5]%nat.
Proof.
  split; [lia |]. apply (partition_concat [1; 2; 3; 4; 5]%nat 2). lia.
Defined.

Lemma schema_mismatch_aborts_witness :
  column_set (medsat_2019 mismatched) ≠ column_set (medsat_2020 mismatched)
  ∧ run (data_cells (λ _ df, Ok df) id) mismatched
    = (mismatched,
       Some (AssertionError "Columns do not match between Medsat Dataset Years")).
Proof.
  assert (column_set (medsat_2019 mismatched)
          ≠ column_set (medsat_2020 mismatched)) as Hne.
  { apply (bool_decide_unpack _). vm_compute. exact I. }
  split; [exact Hne |].
  apply (schema_mismatch_aborts (λ _ df, Ok df) id mismatched Hne).
Defined.

(** C7 fails on the notebook's check: with [LSOA21CD] as the key column,
    every other column of the frame has its record and every record
    names a column of the frame, and the check still reports a gap, the
    key column. *)
Lemma gap_check_reports_key_column :
  let keys : gset string := {["LSOA21CD"]} in
  let names := [txt "c_total"] in
  getitem "medsat_name" variables_without_key = Ok names
  ∧ (∀ c, c ∈ columns merged → c ∉ keys → Some (Str c) ∈ names)
  ∧ (∀ n, n ∈ names → ∃ c, c ∈ columns merged ∧ n = Some (Str c))
  ∧ gap_check merged variables_without_key = Ok {[ txt "LSOA21CD" ]}
  ∧ gap_check merged variables_without_key ≠ Ok ∅.
Proof.
  cbn zeta. split; [reflexivity |]. split; [|split; [|split]].
  - intros c Hc Hkey. cbn in Hc. rewrite !elem_of_cons in Hc.
    destruct Hc as [-> | [-> | Hc]].
    + destruct Hkey. by apply elem_of_singleton.
    + left.
    + by apply not_elem_of_nil in Hc.
  - intros n Hn. apply list_elem_of_singleton in Hn as ->.
    exists "c_total". split; [|done]. cbn. right. left.
  - reflexivity.
  - intros Heq. vm_compute in Heq. discriminate Heq.
Qed.

Lemma gap_check_empty_witness :
  let names := [txt "LSOA21CD"; txt "c_total"] in
  getitem "medsat_name" variables_with_key = Ok names
  ∧ (∀ c, c ∈ columns merged → Some (Str c) ∈ names)
  ∧ (∀ n, n ∈ names → ∃ c, c ∈ columns merged ∧ n = Some (Str c))
  ∧ gap_check merged variables_with_key = Ok ∅.
Proof.
  cbn zeta.
  assert (∀ c, c ∈ columns merged
               → Some (Str c) ∈ [txt "LSOA21CD"; txt "c_total"]) as Hcols.
  { intros c Hc. cbn in Hc. rewrite !elem_of_cons in Hc.
    destruct Hc as [-> | [-> | Hc]]; [left | right; left |].
    by apply not_elem_of_nil in Hc. }
  assert (∀ n, n ∈ [txt "LSOA21CD"; txt "c_total"]
               → ∃ c, c ∈ columns merged ∧ n = Some (Str c)) as Hnames.
  { intros n Hn. rewrite !elem_of_cons in Hn.
    destruct Hn as [-> | [-> | Hn]].
    - exists "LSOA21CD". split; [left | done].
    - exists "c_total". split; [right; left | done].
    - by apply not_elem_of_nil in Hn. }
  split; [reflexivity |]. split; [exact Hcols |]. split; [exact Hnames |].
  exact (gap_check_empty merged variables_with_key _ eq_refl Hcols Hnames).
Defined.

Lemma override_short_circuits_witness :
  let overrides : gmap string string :=
    {[ "c_percent male" := "c_percent males" ]} in
  let candidates : gset string := {[ "c_percent male"; "c_percent males" ]} in
  overrides !! "c_percent male" = Some "c_percent males"
  ∧ exact_score "c_percent male" "c_percent male" == 1
  ∧ matched (match_ exact_score 1 overrides "c_percent male" candidates)
    = Some ("c_percent males", None)
  ∧ scored (match_ exact_score 1 overrides "c_percent male" candidates) = []
  ∧ tie (match_ exact_score 1 overrides "c_percent male" candidates) = false.
Proof.
  cbn zeta. split; [reflexivity |]. split; [reflexivity |].
  apply (override_short_circuits exact_score 1
           {[ "c_percent male" := "c_percent males" ]}
           "c_percent male" "c_percent males"
           {[ "c_percent male"; "c_percent males" ]}).
  reflexivity.
Defined.

Lemma auxiliary_keys_in_catalogue_witness :
  ∃ aux vars,
    auxiliary_cell auxiliary_sheet = Ok aux
    ∧ variables_cell (typed ["c_total"]) (typed ["e_no2"]) (typed []) aux
      = Ok vars
    ∧ getitem "medsat_name" aux
      = Ok [txt "LSOA21CD"; txt "centroid_x";
            txt "RGN22CD"; txt "RGN22NM"; txt "year"]
    ∧ ∀ x, x ∈ ["LSOA21CD"; "RGN22CD"; "RGN22NM"; "year"] →
        ∃ r, r ∈ rows vars
          ∧ cell_at (columns vars) r "medsat_name" = Some (Str x)
          ∧ cell_at (columns vars) r "category" = Some (Str "auxiliary").
Proof.
  eexists _, _.
  split; [vm_compute; reflexivity |]. split; [vm_compute; reflexivity |].
  split; [vm_compute; reflexivity |].
  eapply (auxiliary_keys_in_catalogue auxiliary_sheet _
            (typed ["c_total"]) (typed ["e_no2"]) (typed []) _);
    vm_compute; reflexivity.
Defined.

(** C8 fails on the notebook: the link column of this environmental
    sheet starts with a null; the cell raises nothing and the null is
    still there after the fill. *)
Lemma leading_null_is_kept :
  getitem "link_to_data_source" (environmental_labelled environmental_sheet)
  = Ok [None; txt "https://example.org/air"; None]
  ∧ ∃ df, environmental_cell environmental_sheet = Ok df
      ∧ getitem "link_to_data_source" df
        = Ok [None; txt "https://example.org/air";
              txt "https://example.org/air"].
Proof.
  split; [vm_compute; reflexivity |].
  eexists. split; vm_compute; reflexivity.
Qed.

End Runs.

Section PartitionerShape.
Import Partitioner.
Context {A : Type}.
Implicit Types (ss : list A) (k : Z).

(** X1: for a positive chunk size the loop writes [len // chunk_size + 1]
    files; the file at position [i] carries the number [i + 1] and holds
    the rows from [i * chunk_size] up to, not including,
    [(i + 1) * chunk_size], so that no file has more than [chunk_size]
    rows and every file before position [len // chunk_size] is full. *)
Theorem partition_shape ss k :
  0 < k →
  ∃ parts, partition ss k = Ok parts
    ∧ Z.of_nat (length parts) = Z.of_nat (length ss) / k + 1
    ∧ ∀ (i : nat) p, parts !! i = Some p →
        p.1 = Z.of_nat i + 1
        ∧ p.2 = take (Z.to_nat k) (drop (i * Z.to_nat k) ss)
        ∧ Z.of_nat (length p.2) ≤ k
        ∧ (Z.of_nat i < Z.of_nat (length ss) / k → Z.of_nat (length p.2) = k).
Proof.
  intros Hk. exists (chunk ss k <$> range (n_chunks ss k)).
  split; [by apply partition_ok |].
  split; [by apply partition_count; [|apply partition_ok] |].
  intros i p Hp. unfold range in Hp.
  rewrite list_lookup_fmap in Hp.
  destruct (seqZ 0 (n_chunks ss k) !! i) as [z|] eqn:Hz; [|done].
  injection Hp as <-. apply lookup_seqZ in Hz as [-> Hi].
  rewrite Z.add_0_l.
  assert ((chunk ss k (Z.of_nat i)).2
          = take (Z.to_nat k) (drop (i * Z.to_nat k) ss)) as Hrows.
  { rewrite chunk_rows by lia. do 2 f_equal. nia. }
  split; [reflexivity |]. split; [exact Hrows |].
  rewrite chunk_length by lia. split; [lia |].
  intros Hfull.
  pose proof (Z.mul_div_le (Z.of_nat (length ss)) k Hk). nia.
Qed.

(** X2: a negative chunk size raises nothing.  The loop then writes no
    file at all for a frame with rows, and one empty file for a frame
    without rows. *)
Theorem partition_negative_chunk_size ss k :
  k < 0 →
  partition ss k = Ok (match ss with [] => [(1, [])] | _ :: _ => [] end).
Proof.
  intros Hk. unfold partition.
  destruct (Z.eqb_spec k 0) as [|_]; [lia |]. f_equal.
  unfold range, n_chunks. destruct ss as [|a ss].
  - change (Z.of_nat (length [])) with 0. rewrite Z.div_0_l by lia.
    change (seqZ 0 (0 + 1)) with [0]. cbn [fmap list_fmap].
    unfold chunk, iloc. by rewrite drop_nil, take_nil.
  - assert (Z.of_nat (length (a :: ss)) / k + 1 ≤ 0) as Hn.
    { cbn [length]. pose proof (Z.div_mod (Z.of_nat (S (length ss))) k).
      pose proof (Z.mod_neg_bound (Z.of_nat (S (length ss))) k Hk).
      assert (Z.of_nat (S (length ss)) / k < 0); [|lia]. nia. }
    by rewrite seqZ_nil.
Qed.

End PartitionerShape.

Lemma partition_shape_witness :
  (0 < 2)%Z
  ∧ ∃ parts, Partitioner.partition [1; 2; 3; 4; 5]%nat 2 = Ok parts
      ∧ Z.of_nat (length parts) = Z.of_nat (length [1; 2; 3; 4; 5]%nat) / 2 + 1
      ∧ ∀ (i : nat) p, parts !! i = Some p →
          p.1 = Z.of_nat i + 1
          ∧ p.2 = take (Z.to_nat 2) (drop (i * Z.to_nat 2) [1; 2; 3; 4; 5]%nat)
          ∧ Z.of_nat (length p.2) ≤ 2
          ∧ (Z.of_nat i < Z.of_nat (length [1; 2; 3; 4; 5]%nat) / 2
             → Z.of_nat (length p.2) = 2).
Proof.
  split; [lia |]. apply (partition_shape [1; 2; 3; 4; 5]%nat 2). lia.
Defined.

Lemma partition_negative_chunk_size_witness :
  (-2 < 0)%Z
  ∧ Partitioner.partition [1; 2; 3]%nat (-2) = Ok []
  ∧ Partitioner.partition ([] : list nat) (-2) = Ok [(1, [])].
Proof.
  split; [lia |]. split.
  - apply (partition_negative_chunk_size [1; 2; 3]%nat (-2)). lia.
  - apply (partition_negative_chunk_size ([] : list nat) (-2)). lia.
Defined.

(** ** Frames: selection, stacking, renaming *)

Section FrameMoreFacts.
Import Frame MedSat.
Implicit Types (c : string) (cols : list string) (r : list cell)
  (df : DataFrame).

Lemma index_of_cons c x cols :
  index_of c (x :: cols)
  = if decide (x = c) then Some 0%nat else S <$> index_of c cols.
Proof.
  unfold index_of. cbn [list_find]. destruct (decide (x = c)); [done |].
  destruct (list_find _ cols) as [[i y]|]; reflexivity.
Qed.

Lemma column_index c df i :
  index_of c (columns df) = Some i → column c df = cell_at_pos i <$> rows df.
Proof.
  intros Hi. unfold column. apply list_fmap_ext. intros _ r _.
  unfold cell_at. by rewrite Hi.
Qed.

(** Columns found at the same position hold the same cells. *)
Lemma column_same_index c c' cols cols' (rs : list (list cell)) :
  index_of c' cols' = index_of c cols →
  column c' {| columns := cols'; rows := rs |}
  = column c {| columns := cols; rows := rs |}.
Proof.
  intros Hi. unfold column. cbn [columns rows]. apply list_fmap_ext.
  intros _ r _. unfold cell_at. by rewrite Hi.
Qed.

Lemma len_select_rows cs df :
  len {| columns := cs; rows := reindex (columns df) cs <$> rows df |} = len df.
Proof. unfold len. cbn [rows]. by rewrite length_fmap. Qed.

(** X3: [df[[c1, ..., cn]]] either finds every label, and then returns a
    frame with exactly these columns in the order asked for, every row
    kept and under each label the cells the frame had there; or raises
    [KeyError] for a label asked for that the frame lacks. *)
Theorem select_spec cs df :
  match select cs df with
  | Ok out =>
      (∀ c, c ∈ cs → c ∈ columns df)
      ∧ columns out = cs
      ∧ len out = len df
      ∧ ∀ c, c ∈ cs → column c out = column c df
  | Err e => ∃ c, e = KeyError c ∧ c ∈ cs ∧ c ∉ columns df
  end.
Proof.
  unfold select. destruct (list_find _ cs) as [[i c]|] eqn:Hf.
  - apply list_find_Some in Hf as (Hi & Hc & _).
    exists c. split; [done |]. split; [|done].
    by eapply list_elem_of_lookup_2.
  - apply list_find_None in Hf. rewrite Forall_forall in Hf.
    split; [|split; [done |split; [apply len_select_rows |]]].
    + intros c Hc. specialize (Hf c Hc). cbn in Hf.
      by destruct (decide (c ∈ columns df)).
    + intros c Hc. unfold column. cbn [columns rows].
      rewrite <- list_fmap_compose. apply list_fmap_ext.
      intros _ r _. unfold compose. by rewrite cell_at_reindex.
Qed.

Lemma column_set_setitem c vals df :
  column_set (setitem c vals df) = {[ c ]} ∪ column_set df.
Proof.
  apply set_eq. intros x. unfold column_set.
  rewrite elem_of_union, !elem_of_list_to_set, elem_of_singleton.
  rewrite elem_of_columns_setitem. tauto.
Qed.

(** X4: after the first cell every row of the 2019 frame has the year
    2019 and every row of the 2020 frame the year 2020, whatever year
    column the files had; no row is added or dropped and every other
    column holds the cells it held in the file. *)
Theorem load_years lookup_csv geojson_2019 geojson_2020 st :
  load lookup_csv geojson_2019 geojson_2020 = Ok st →
  medsat st = None
  ∧ column "year" (medsat_2019 st)
    = replicate (len geojson_2019) (Some (Num 2019))
  ∧ column "year" (medsat_2020 st)
    = replicate (len geojson_2020) (Some (Num 2020))
  ∧ (∀ c, c ∈ columns geojson_2019 → c ≠ "year" →
       column c (medsat_2019 st) = column c geojson_2019)
  ∧ (∀ c, c ∈ columns geojson_2020 → c ≠ "year" →
       column c (medsat_2020 st) = column c geojson_2020).
Proof.
  unfold load. intros Hload.
  apply bind_Ok_inv in Hload as (lookup & _ & Hload).
  injection Hload as <-. cbn [medsat medsat_2019 medsat_2020].
  unfold assign_scalar.
  split; [done |].
  split; [by rewrite column_setitem, decide_True by
            (rewrite ?length_replicate; auto) |].
  split; [by rewrite column_setitem, decide_True by
            (rewrite ?length_replicate; auto) |].
  split; intros c Hc Hne;
    by rewrite column_setitem, decide_False by
         (rewrite ?length_replicate; auto).
Qed.

(** X5: because both frames get their year column before the columns are
    compared, the assertion after the first cell passes exactly when the
    two files have the same columns apart from [year]: a year column that
    only one of the files has goes unnoticed. *)
Theorem load_then_schema_assert lookup_csv geojson_2019 geojson_2020 st :
  load lookup_csv geojson_2019 geojson_2020 = Ok st →
  schema_assert st = Ok st
  ↔ column_set geojson_2019 ∖ {[ "year" ]}
    = column_set geojson_2020 ∖ {[ "year" ]}.
Proof.
  unfold load. intros Hload.
  apply bind_Ok_inv in Hload as (lookup & _ & Hload).
  injection Hload as <-.
  set (st := {| lsoa_to_region := lookup |}).
  assert (column_set (medsat_2019 st) = column_set (medsat_2020 st)
          ↔ column_set geojson_2019 ∖ {[ "year" ]}
            = column_set geojson_2020 ∖ {[ "year" ]}) as Hsets.
  { unfold st. cbn [medsat_2019 medsat_2020]. unfold assign_scalar.
    rewrite !column_set_setitem.
    generalize (column_set geojson_2019) (column_set geojson_2020).
    intros a b. split; intros Heq; apply set_eq; intros x;
      pose proof (proj1 (set_eq _ _) Heq x) as Hx; set_unfold;
      destruct (decide (x = "year")); tauto. }
  rewrite <- Hsets. split.
  - intros Hok. destruct (decide (column_set (medsat_2019 st)
                                  = column_set (medsat_2020 st))); [done |].
    by rewrite schema_assert_raises in Hok.
  - apply schema_assert_passes.
Qed.



End FrameMoreFacts.

(** ** The data cell: renaming and merging *)

Section RenameMergeFacts.
Import Frame MedSat SpatialSignatures.
Implicit Types (c : string) (cols : list string) (r l : list cell)
  (df : DataFrame).

Lemma rename_geography_code_label c :
  default c (({[ "geography code" := "LSOA21CD" ]} : gmap string string) !! c)
  = if decide (c = "geography code") then "LSOA21CD" else c.
Proof.
  destruct (decide (c = "geography code")) as [-> | Hne].
  - by rewrite lookup_singleton_eq.
  - by rewrite lookup_singleton_ne.
Qed.

Lemma columns_rename_geography_code df :
  columns (rename {[ "geography code" := "LSOA21CD" ]} df)
  = (λ c, if decide (c = "geography code") then "LSOA21CD" else c)
    <$> columns df.
Proof.
  unfold rename, map_columns. cbn [columns]. apply list_fmap_ext.
  intros _ c _. apply rename_geography_code_label.
Qed.

Lemma index_of_renamed_new cols :
  "LSOA21CD" ∉ cols →
  index_of "LSOA21CD"
    ((λ c, if decide (c = "geography code") then "LSOA21CD" else c) <$> cols)
  = index_of "geography code" cols.
Proof.
  induction cols as [|x cols IH]; [done |].
  rewrite not_elem_of_cons. intros [Hx Hcols].
  rewrite fmap_cons, !index_of_cons, IH by done.
  destruct (decide (x = "geography code")) as [-> | Hne].
  - by rewrite decide_True.
  - by rewrite decide_False.
Qed.

Lemma index_of_renamed_other cols c :
  c ≠ "geography code" → c ≠ "LSOA21CD" →
  index_of c
    ((λ c, if decide (c = "geography code") then "LSOA21CD" else c) <$> cols)
  = index_of c cols.
Proof.
  intros Hgc Hl. induction cols as [|x cols IH]; [done |].
  rewrite fmap_cons, !index_of_cons, IH.
  destruct (decide (x = "geography code")) as [-> | Hne].
  - by rewrite !decide_False.
  - done.
Qed.

(** X7: renaming [geography code] to [LSOA21CD] changes labels only.  In
    a frame that has no [LSOA21CD] column yet, the rows stay as they
    are, [LSOA21CD] holds the cells that [geography code] held, no
    column is called [geography code] any more, and every other label
    names the column it named before. *)
Theorem rename_geography_code df :
  "LSOA21CD" ∉ columns df →
  rows (rename {[ "geography code" := "LSOA21CD" ]} df) = rows df
  ∧ column "LSOA21CD" (rename {[ "geography code" := "LSOA21CD" ]} df)
    = column "geography code" df
  ∧ ("geography code"
     ∉ columns (rename {[ "geography code" := "LSOA21CD" ]} df))
  ∧ ∀ c, c ≠ "geography code" → c ≠ "LSOA21CD" →
      column c (rename {[ "geography code" := "LSOA21CD" ]} df) = column c df.
Proof.
  intros Hnew.
  pose proof (columns_rename_geography_code df) as Hcols.
  split; [reflexivity |]. split; [|split].
  - destruct df as [cols rs]. unfold rename, map_columns in *.
    cbn [columns rows] in *. apply column_same_index.
    rewrite Hcols. by apply index_of_renamed_new.
  - rewrite Hcols. intros Hin. apply list_elem_of_fmap in Hin as (x & Hx & _).
    by destruct (decide (x = "geography code")).
  - intros c Hgc Hl. destruct df as [cols rs].
    unfold rename, map_columns in *. cbn [columns rows] in *.
    apply column_same_index. rewrite Hcols.
    by apply index_of_renamed_other.
Qed.

Lemma merge_left_missing_key key (left right : DataFrame) :
  key ∉ columns left ∨ key ∉ columns right →
  merge_left key left right = Err (KeyError key).
Proof.
  intros Hmissing. unfold merge_left.
  destruct Hmissing as [Hnot | Hnot].
  - by rewrite (index_of_not_elem _ _ Hnot).
  - rewrite (index_of_not_elem _ _ Hnot).
    by destruct (index_of key (columns left)).
Qed.

Lemma without_key_index key (cols : list string) j :
  index_of key cols = Some j → without_key key cols = delete j cols.
Proof. intros Hj. unfold without_key. by rewrite Hj. Qed.

(** X8: [merge] raises for three reasons only, looked at in this
    order, for frames whose labels are pairwise distinct: [KeyError]
    with the key, when the key is not a column of both frames;
    [ValueError], when one key column is of text and the other numeric;
    [MergeError], when adding the suffixes makes a label of one frame
    repeat an earlier one.  None of them looks at how often a key
    occurs. *)
Theorem merge_left_error key (left right : DataFrame) e :
  NoDup (columns left) → NoDup (columns right) →
  merge_left key left right = Err e
  ↔ (e = KeyError key ∧ (key ∉ columns left ∨ key ∉ columns right))
    ∨ (key ∈ columns left ∧ key ∈ columns right
       ∧ ((e = ValueError
           ∧ keys_clash (column key left) (column key right) = true)
          ∨ (e = MergeError
             ∧ keys_clash (column key left) (column key right) = false
             ∧ suffix_clash (columns left) (without_key key (columns right))
               = true))).
Proof.
  intros _ _.
  destruct (decide (key ∈ columns left)) as [Hl | Hl];
    [destruct (decide (key ∈ columns right)) as [Hr | Hr] |].
  - destruct (index_of_elem _ _ Hl) as [i Hi].
    destruct (index_of_elem _ _ Hr) as [j Hj].
    rewrite (merge_left_present _ _ _ _ _ Hi Hj).
    rewrite (column_index _ _ _ Hi), (column_index _ _ _ Hj).
    rewrite (without_key_index _ _ _ Hj).
    destruct (keys_clash _ _); [|destruct (suffix_clash _ _)].
    + split.
      * intros [= <-]. right. auto.
      * intros [[_ [? | ?]] | (_ & _ & [[-> _] | (_ & ? & _)])]; done.
    + split.
      * intros [= <-]. right. auto 6.
      * intros [[_ [? | ?]] | (_ & _ & [[_ ?] | (-> & _)])]; done.
    + split; [done |].
      intros [[_ [? | ?]] | (_ & _ & [[_ ?] | (_ & _ & ?)])]; done.
  - rewrite merge_left_missing_key by by right. split.
    + intros [= <-]. left. auto.
    + intros [[-> _] | (_ & ? & _)]; done.
  - rewrite merge_left_missing_key by by left. split.
    + intros [= <-]. left. auto.
    + intros [[-> _] | (? & _)]; done.
Qed.

Lemma merge_row_prefix i j width rs l o :
  o ∈ merge_row i j width rs l → ∃ ext, o = l ++ ext.
Proof.
  unfold merge_row. destruct (matches _ _ _) as [|r ms].
  - intros Ho. apply list_elem_of_singleton in Ho as ->. eauto.
  - intros Ho. apply list_elem_of_fmap in Ho as (r' & -> & _). eauto.
Qed.

Lemma merge_row_nonempty i j width rs l :
  ∃ ext, l ++ ext ∈ merge_row i j width rs l.
Proof.
  unfold merge_row. destruct (matches _ _ _) as [|r ms].
  - eexists. left.
  - eexists. rewrite fmap_cons. left.
Qed.

(** X9: a left merge never drops and never invents a primary row,
    whatever the lookup holds: the result has at least as many rows as
    the primary frame, every primary row is the beginning of some row of
    the result, and every row of the result begins with a primary row. *)
Theorem merge_left_keeps_primary key (primary lookup out : DataFrame) :
  merge_left key primary lookup = Ok out →
  (len primary ≤ len out)%nat
  ∧ (∀ l, l ∈ rows primary → ∃ ext, l ++ ext ∈ rows out)
  ∧ (∀ o, o ∈ rows out → ∃ l ext, l ∈ rows primary ∧ o = l ++ ext).
Proof.
  intros Hmerge.
  apply merge_left_Ok in Hmerge as (i & j & _ & _ & _ & _ & _ & Hrows).
  unfold len. rewrite Hrows. clear Hrows.
  set (width := length (delete j (columns lookup))).
  split; [|split].
  - induction (rows primary) as [|l ls IH]; [done |].
    rewrite bind_cons, length_app, merge_row_length. cbn [length]. lia.
  - intros l Hl. destruct (merge_row_nonempty i j width (rows lookup) l)
      as [ext Hext].
    exists ext. apply list_elem_of_bind. eauto.
  - intros o Ho. apply list_elem_of_bind in Ho as (l & Ho & Hl).
    apply merge_row_prefix in Ho as [ext ->]. eauto.
Qed.

Lemma add_suffix_id others sfx c : c ∉ others → add_suffix others sfx c = c.
Proof. intros Hnot. unfold add_suffix. by rewrite bool_decide_eq_false_2. Qed.

Lemma add_suffix_disjoint others sfx (cols : list string) :
  (∀ c, c ∈ cols → c ∉ others) → add_suffix others sfx <$> cols = cols.
Proof.
  intros Hdisjoint. rewrite <- (list_fmap_id cols) at 2.
  apply list_fmap_ext. intros k c Hc. apply add_suffix_id, Hdisjoint.
  by eapply list_elem_of_lookup_2.
Qed.

(** Labels that were not renamed repeat nothing new. *)
Lemma suffix_duplicates_same (labels : list string) :
  suffix_duplicates labels labels = [].
Proof.
  unfold suffix_duplicates. generalize (duplicated labels). intros ds.
  revert ds. induction labels as [|c labels IH]; intros [|d ds]; try done.
  cbn. rewrite IH. by destruct d.
Qed.

(** Frames that share no label but the key are merged without any
    renaming. *)
Lemma merge_labels_disjoint (left_cols rcols : list string) :
  (∀ c, c ∈ left_cols → c ∉ rcols) →
  suffix_clash left_cols rcols = false
  ∧ merge_labels left_cols rcols = left_cols ++ rcols.
Proof.
  intros Hdisjoint.
  assert (add_suffix rcols "_x" <$> left_cols = left_cols) as Hl
    by by apply add_suffix_disjoint.
  assert (add_suffix left_cols "_y" <$> rcols = rcols) as Hr.
  { apply add_suffix_disjoint. intros c Hc Hc'. by apply (Hdisjoint c). }
  unfold suffix_clash, merge_labels. rewrite Hl, Hr.
  by rewrite !suffix_duplicates_same.
Qed.

Lemma index_of_app_l c (cols more : list string) i :
  index_of c cols = Some i → index_of c (cols ++ more) = Some i.
Proof.
  revert i. induction cols as [|x cols IH]; intros i; [done |].
  rewrite <- app_comm_cons, !index_of_cons.
  destruct (decide (x = c)); [done |].
  destruct (index_of c cols) as [i'|]; [|done].
  by rewrite (IH i').
Qed.

(** In a list of distinct labels, what is left without the key. *)
Lemma elem_of_delete_index key (cols : list string) j c :
  NoDup cols → index_of key cols = Some j →
  c ∈ delete j cols → c ∈ cols ∧ c ≠ key.
Proof.
  intros Hnd Hj Hc. split; [by eapply list_elem_of_delete_inv |].
  intros ->. apply index_of_Some in Hj.
  rewrite delete_take_drop in Hc.
  rewrite <- (take_drop_middle _ _ _ Hj) in Hnd.
  apply NoDup_app in Hnd as (_ & Hfront & Hback).
  apply NoDup_cons in Hback as [Hback _].
  apply elem_of_app in Hc as [Hc | Hc]; [|done].
  apply (Hfront _ Hc). left.
Qed.

(** The cells a merge with distinct lookup keys leaves under a label
    of the left frame. *)
Lemma merge_rows_unique_column i j width rs (ls : list (list cell)) p :
  NoDup (cell_at_pos j <$> rs) →
  Forall (λ l, (p < length l)%nat) ls →
  cell_at_pos p <$> (ls ≫= merge_row i j width rs) = cell_at_pos p <$> ls.
Proof.
  intros Hnd Hlong. induction Hlong as [|l ls Hl _ IH]; [done |].
  rewrite bind_cons, fmap_app, IH, fmap_cons. clear IH.
  destruct (merge_row_unique i j width rs l Hnd) as (ext & -> & _).
  cbn. f_equal. unfold cell_at_pos. by rewrite lookup_app_l.
Qed.

Lemma merge_rows_prefix i j width rs (ls : list (list cell)) :
  NoDup (cell_at_pos j <$> rs) →
  Forall2 (λ l o, ∃ ext, o = l ++ ext) ls (ls ≫= merge_row i j width rs).
Proof.
  intros Hnd. eapply Forall2_impl; [by apply merge_rows_unique |].
  intros l o (ext & -> & _). eauto.
Qed.

Lemma prefix_rows_trans (ls ms os : list (list cell)) :
  Forall2 (λ l o, ∃ ext, o = l ++ ext) ls ms →
  Forall2 (λ l o, ∃ ext, o = l ++ ext) ms os →
  Forall2 (λ l o, ∃ ext, o = l ++ ext) ls os.
Proof.
  intros Hrows1. revert os.
  induction Hrows1 as [|l m ls ms (ext1 & ->) _ IH]; intros os Hrows2.
  - inversion Hrows2. constructor.
  - inversion Hrows2 as [|m' o ms' os' (ext2 & ->) Hrest]; subst.
    constructor; [|by apply IH].
    exists (ext1 ++ ext2). by rewrite app_assoc.
Qed.

(** X10: the two merges of the spatial signatures keep the frame row for
    row.  Take three frames with pairwise distinct labels that share no
    label but the keys: [type] between the signatures and the pen
    portraits, [id] between the signatures and the per-geometry table.
    When every signature has a cell for each of its columns, each pair
    of key columns can be compared, and neither lookup repeats a key,
    the cell returns one row for every signature, in the order of the
    signatures, each beginning with the cells the signature had; its
    labels are those of the signatures followed by those of the two
    lookups without their keys. *)
Theorem ss_cell_keeps_rows (gpkg pen per_geometry : DataFrame) :
  NoDup (columns gpkg) → NoDup (columns pen) →
  NoDup (columns per_geometry) →
  "type" ∈ columns gpkg → "type" ∈ columns pen →
  "id" ∈ columns gpkg → "id" ∈ columns per_geometry →
  (∀ c, c ∈ columns gpkg → c ∈ columns pen → c = "type") →
  (∀ c, c ∈ columns gpkg ∨ c ∈ columns pen →
        c ∈ columns per_geometry → c = "id") →
  Forall (λ r, length r = length (columns gpkg)) (rows gpkg) →
  keys_clash (column "type" gpkg) (column "type" pen) = false →
  keys_clash (column "id" gpkg) (column "id" per_geometry) = false →
  NoDup (column "type" pen) → NoDup (column "id" per_geometry) →
  ∃ out, ss_cell gpkg pen per_geometry = Ok out
    ∧ len out = len gpkg
    ∧ columns out
      = columns gpkg ++ without_key "type" (columns pen)
        ++ without_key "id" (columns per_geometry)
    ∧ Forall2 (λ l o, ∃ ext, o = l ++ ext) (rows gpkg) (rows out).
Proof.
  intros Hnd_g Hnd_pc Hnd_qc Ht_g Ht_p Hid_g Hid_q Hshare1 Hshare2 Hwf
    Hkeys1 Hkeys2 Hnd_p Hnd_q.
  destruct (index_of_elem _ _ Ht_g) as [i Hi].
  destruct (index_of_elem _ _ Ht_p) as [j Hj].
  destruct (index_of_elem _ _ Hid_g) as [i' Hi'].
  destruct (index_of_elem _ _ Hid_q) as [j' Hj'].
  rewrite (column_index _ _ _ Hi), (column_index _ _ _ Hj) in Hkeys1.
  rewrite (column_index _ _ _ Hi'), (column_index _ _ _ Hj') in Hkeys2.
  rewrite (column_index _ _ _ Hj) in Hnd_p.
  rewrite (column_index _ _ _ Hj') in Hnd_q.
  rewrite (without_key_index _ _ _ Hj), (without_key_index _ _ _ Hj').
  set (pen_cols := delete j (columns pen)) in *.
  set (geo_cols := delete j' (columns per_geometry)) in *.
  destruct (merge_labels_disjoint (columns gpkg) pen_cols)
    as [Hclash1 Hlabels1].
  { intros c Hc Hc'.
    apply (elem_of_delete_index "type") in Hc' as [Hc' Hne]; [|done..].
    by apply Hne, Hshare1. }
  destruct (merge_labels_disjoint (columns gpkg ++ pen_cols) geo_cols)
    as [Hclash2 Hlabels2].
  { intros c Hc Hc'.
    apply (elem_of_delete_index "id") in Hc' as [Hc' Hne]; [|done..].
    apply Hne, Hshare2; [|done].
    apply elem_of_app in Hc as [Hc | Hc]; [by left | right].
    by eapply list_elem_of_delete_inv. }
  pose proof (merge_left_returns "type" gpkg pen i j Hi Hj Hkeys1 Hclash1)
    as Hmid.
  fold pen_cols in Hmid. rewrite Hlabels1 in Hmid.
  set (mid := {| columns := columns gpkg ++ pen_cols;
                 rows := rows gpkg
                         ≫= merge_row i j (length pen_cols) (rows pen) |})
    in *.
  assert (cell_at_pos i' <$> rows mid = cell_at_pos i' <$> rows gpkg)
    as Hsame.
  { apply merge_rows_unique_column; [done |].
    eapply Forall_impl; [exact Hwf |]. intros r ->.
    apply index_of_Some in Hi'. by eapply lookup_lt_Some. }
  assert (index_of "id" (columns mid) = Some i') as Hi_mid
    by by apply index_of_app_l.
  pose proof (merge_left_returns "id" mid per_geometry i' j' Hi_mid Hj') as Hout.
  rewrite Hsame in Hout. specialize (Hout Hkeys2 Hclash2).
  fold geo_cols in Hout.
  change (columns mid) with (columns gpkg ++ pen_cols) in Hout.
  rewrite Hlabels2 in Hout.
  unfold ss_cell. rewrite Hmid. cbn [mbind result_bind]. rewrite Hout.
  eexists. split; [reflexivity |]. cbn [columns rows].
  assert (Forall2 (λ l o, ∃ ext, o = l ++ ext) (rows gpkg)
            (rows mid ≫= merge_row i' j' (length geo_cols)
                            (rows per_geometry))) as Hall.
  { eapply prefix_rows_trans; by apply merge_rows_prefix. }
  split; [|split; [by rewrite app_assoc | exact Hall]].
  unfold len. cbn [rows]. symmetry. by eapply Forall2_length.
Qed.

(** X11: the data cell needs the key on both sides.  When neither
    yearly frame has a [geography code] or an [LSOA21CD] column, or the
    lookup has no [LSOA21CD] column, the cell raises [KeyError] for
    [LSOA21CD], whatever the sort and the repair would do, and [medsat]
    stays unbound. *)
Theorem medsat_cell_missing_key
    (sort_values : list string → DataFrame → result DataFrame)
    (make_valid : cell → cell) st :
  ((∀ c, c ∈ ["geography code"; "LSOA21CD"] →
      (c ∉ columns (medsat_2019 st)) ∧ (c ∉ columns (medsat_2020 st)))
   ∨ "LSOA21CD" ∉ columns (lsoa_to_region st)) →
  medsat_cell sort_values make_valid st = Err (KeyError "LSOA21CD")
  ∧ run [medsat_cell sort_values make_valid] st
    = (st, Some (KeyError "LSOA21CD")).
Proof.
  intros Hmissing.
  assert (merge_left "LSOA21CD"
            (rename {[ "geography code" := "LSOA21CD" ]}
               (pd_concat [medsat_2019 st; medsat_2020 st]))
            (lsoa_to_region st) = Err (KeyError "LSOA21CD")) as Hmerge.
  { apply merge_left_missing_key.
    destruct Hmissing as [Hdata | Hlookup]; [left | by right].
    rewrite columns_rename_geography_code. intros Hin.
    apply list_elem_of_fmap in Hin as (x & Hx & Hin).
    change (columns (pd_concat [medsat_2019 st; medsat_2020 st]))
      with (concat_columns [medsat_2019 st; medsat_2020 st]) in Hin.
    apply elem_of_concat_columns in Hin as (df & Hdf & Hin).
    assert (x ∈ ["geography code"; "LSOA21CD"]) as Hx'.
    { destruct (decide (x = "geography code")) as [-> | _];
        [left | subst x; right; left]. }
    destruct (Hdata x Hx') as [H19 H20].
    rewrite !elem_of_cons in Hdf. destruct Hdf as [-> | [-> | Hdf]]; [done.. |].
    by apply not_elem_of_nil in Hdf. }
  assert (medsat_cell sort_values make_valid st = Err (KeyError "LSOA21CD"))
    as Hcell by (unfold medsat_cell; by rewrite Hmerge).
  split; [exact Hcell |]. cbn [run]. by rewrite Hcell.
Qed.

End RenameMergeFacts.

(** ** Cleaned labels *)

Section LabelFacts.
Import Normalizer Labels.

Lemma re_sub_ws_go_single_spaced in_run s :
  single_spaced_go in_run (re_sub_ws_go in_run s) = true.
Proof.
  revert in_run. induction s as [|a s IH]; intros in_run; [done |].
  cbn [re_sub_ws_go]. destruct (is_space a) eqn:Ha.
  - destruct in_run; [apply IH |].
    cbn [single_spaced_go]. change (is_space " ") with true. cbn iota.
    by rewrite IH.
  - cbn [single_spaced_go]. rewrite Ha. apply IH.
Qed.

Lemma re_sub_ws_go_fixed in_run s :
  single_spaced_go in_run s = true → re_sub_ws_go in_run s = s.
Proof.
  revert in_run. induction s as [|a s IH]; intros in_run; [done |].
  cbn [re_sub_ws_go single_spaced_go]. destruct (is_space a) eqn:Ha.
  - intros Hs. apply andb_prop in Hs as [Hs Hrest].
    apply andb_prop in Hs as [Heq Hrun].
    apply Ascii.eqb_eq in Heq as ->.
    destruct in_run; [discriminate |]. by rewrite IH.
  - intros Hs. by rewrite IH.
Qed.

(** X12: after [re.sub(r'\s+', ' ', c)] the only white space left in a
    label is the single space, never two in a row; and the labels the
    rule leaves unchanged are exactly the labels that are like that
    already.  White space at the ends is kept, as one space. *)
Theorem clean_data_label_single_spaced c :
  single_spaced (clean_data_label c) = true
  ∧ (clean_data_label c = c ↔ single_spaced c = true).
Proof.
  split; [apply re_sub_ws_go_single_spaced |]. split.
  - intros Heq. rewrite <- Heq. apply re_sub_ws_go_single_spaced.
  - apply re_sub_ws_go_fixed.
Qed.

Lemma length_append (s t : string) :
  String.length (s +:+ t) = (String.length s + String.length t)%nat.
Proof.
  induction s as [|a s IH]; [done |].
  rewrite append_cons. cbn [String.length]. by rewrite IH.
Qed.

Lemma all_chars_append p (s t : string) :
  all_chars p (s +:+ t) = all_chars p s && all_chars p t.
Proof.
  induction s as [|a s IH]; [done |].
  rewrite append_cons. cbn [all_chars]. by rewrite IH, andb_assoc.
Qed.

Lemma all_chars_per_char p h s :
  (∀ a, all_chars p (h a) = true) → all_chars p (per_char h s) = true.
Proof.
  intros Hh. induction s as [|a s IH]; [done |].
  cbn [per_char]. by rewrite all_chars_append, Hh, IH.
Qed.

Lemma length_per_char_le h s :
  (∀ a, (String.length (h a) ≤ 1)%nat) →
  (String.length (per_char h s) ≤ String.length s)%nat.
Proof.
  intros Hh. induction s as [|a s IH]; [done |].
  cbn [per_char String.length]. rewrite length_append.
  specialize (Hh a). lia.
Qed.

Lemma length_per_char_eq h s :
  (∀ a, String.length (h a) = 1%nat) →
  String.length (per_char h s) = String.length s.
Proof.
  intros Hh. induction s as [|a s IH]; [done |].
  cbn [per_char String.length]. rewrite length_append, Hh, IH. done.
Qed.

(** X13: the sheet rule changes a label character by character: the
    cleaned label is as long as the raw one and has no space and no
    upper-case letter A to Z left.  The environmental rule moreover
    leaves no parenthesis, and its result is at most as long as the raw
    label. *)
Theorem sheet_labels_clean c :
  String.length (clean_sheet_label c) = String.length c
  ∧ all_chars sheet_clean (clean_sheet_label c) = true
  ∧ (String.length (clean_environmental_label c) ≤ String.length c)%nat
  ∧ all_chars environmental_clean (clean_environmental_label c) = true.
Proof.
  rewrite clean_sheet_label_per_char, clean_environmental_label_per_char.
  split; [|split; [|split]].
  - apply length_per_char_eq.
    intros [[] [] [] [] [] [] [] []]; vm_compute; reflexivity.
  - apply all_chars_per_char.
    intros [[] [] [] [] [] [] [] []]; vm_compute; reflexivity.
  - apply length_per_char_le.
    intros [[] [] [] [] [] [] [] []]; vm_compute; lia.
  - apply all_chars_per_char.
    intros [[] [] [] [] [] [] [] []]; vm_compute; reflexivity.
Qed.

End LabelFacts.

(** ** The metadata cells *)

Section MetadataFacts.
Import Frame MedSat Normalizer Names Examples.
Implicit Types (df sheet : DataFrame) (s : list cell) (c : cell).

Lemma bind_Ok {X Y : Type} (x : X) (k : X → result Y) : Ok x ≫= k = k x.
Proof. reflexivity. Qed.

Lemma bind_Err {X Y : Type} e (k : X → result Y) : Err e ≫= k = Err e.
Proof. reflexivity. Qed.

Lemma columns_setitem_existing (c : string) vals df :
  c ∈ columns df → columns (setitem c vals df) = columns df.
Proof. intros Hin. unfold setitem. cbn [columns]. by rewrite bool_decide_eq_true_2. Qed.

Lemma traverse_Ok {X Y : Type} (f : X → result Y) (g : X → Y) l :
  (∀ x, x ∈ l → f x = Ok (g x)) → traverse f l = Ok (g <$> l).
Proof.
  induction l as [|x l IH]; intros Hf; [done |].
  cbn [traverse]. rewrite Hf by left. cbn.
  rewrite IH by (intros y Hy; apply Hf; by right). done.
Qed.

Lemma traverse_Err {X Y : Type} (f : X → result Y) l x e :
  x ∈ l → f x = Err e → (∀ y e', f y = Err e' → e' = e) →
  traverse f l = Err e.
Proof.
  intros Hx Hfx Honly. induction l as [|y l IH]; [by apply not_elem_of_nil in Hx |].
  cbn [traverse]. destruct (f y) as [b|e'] eqn:Hfy.
  - cbn. apply elem_of_cons in Hx as [-> | Hx]; [congruence |].
    by rewrite IH.
  - cbn. f_equal. by eapply Honly.
Qed.

Lemma radd_str_Ok p s :
  Forall text_or_null s → object_column s = true →
  radd_str p s = Ok (prefixed p <$> s).
Proof.
  intros Hs Hobj. unfold radd_str. rewrite Hobj.
  apply traverse_Ok. intros c Hc.
  rewrite Forall_forall in Hs. destruct (Hs c Hc) as [-> | [x ->]]; done.
Qed.

Lemma radd_str_Err p s c :
  c ∈ s → ¬ text_or_null c → radd_str p s = Err TypeError.
Proof.
  intros Hc Hnot. unfold radd_str. destruct (object_column s); [|done].
  eapply traverse_Err; [exact Hc | |].
  - destruct c as [[x|z|g]|]; try reflexivity.
    + destruct Hnot. right. eauto.
    + destruct Hnot. by left.
  - intros [[x|z|g]|] e'; by intros [= <-].
Qed.

Lemma radd_str_inv p s t :
  radd_str p s = Ok t →
  Forall text_or_null s ∧ object_column s = true ∧ t = prefixed p <$> s.
Proof.
  intros Hok.
  assert (object_column s = true) as Hobj
    by (unfold radd_str in Hok; by destruct (object_column s)).
  assert (Forall text_or_null s) as Hs.
  { apply Forall_forall. intros c Hc.
    destruct (decide (c = None)) as [-> | Hne]; [by left |].
    destruct c as [[x|z|g]|]; [right; eauto | | | done].
    - rewrite (radd_str_Err p s (Some (Num z))) in Hok; [done.. |].
      intros [|[x ?]]; done.
    - rewrite (radd_str_Err p s (Some (Shape g))) in Hok; [done.. |].
      intros [|[x ?]]; done. }
  split; [done |]. split; [done |].
  rewrite radd_str_Ok in Hok by done. by injection Hok.
Qed.

(** X14: the environmental cell names each variable [e_] followed by its
    declared name, a null name giving a null; every row and the column
    order of the sheet are kept apart from the new column.  A declared
    name that is a number or a shape stops the cell with [TypeError]. *)
Theorem environmental_cell_names sheet :
  (∀ df, environmental_cell sheet = Ok df →
     ∃ name, getitem "name" (environmental_labelled sheet) = Ok name
       ∧ Forall text_or_null name
       ∧ getitem "medsat_name" df = Ok (prefixed "e_" <$> name)
       ∧ len df = len (environmental_labelled sheet))
  ∧ (∀ link name c,
       getitem "link_to_data_source" (environmental_labelled sheet) = Ok link →
       getitem "name" (environmental_labelled sheet) = Ok name →
       c ∈ name → ¬ text_or_null c →
       environmental_cell sheet = Err TypeError).
Proof.
  unfold environmental_cell. set (df0 := environmental_labelled sheet).
  assert (∀ link name,
            getitem "link_to_data_source" df0 = Ok link →
            getitem "name" df0 = Ok name →
            length (ffill link) = len df0
            ∧ getitem "name" (setitem "link_to_data_source" (ffill link) df0)
              = Ok name) as Hstep.
  { intros link name Hlink Hname.
    apply getitem_Ok in Hlink as [Hin ->].
    apply getitem_Ok in Hname as [Hin' ->].
    assert (length (ffill (column "link_to_data_source" df0)) = len df0)
      as Hlen by by rewrite length_ffill, length_column.
    split; [done |].
    rewrite getitem_setitem by auto. by rewrite decide_False. }
  split.
  - intros df Hcell.
    apply bind_Ok_inv in Hcell as (link & Hlink & Hcell).
    apply bind_Ok_inv in Hcell as (name & Hname & Hcell).
    apply bind_Ok_inv in Hcell as (mn & Hmn & Hcell).
    injection Hcell as <-.
    assert (getitem "name" df0 = Ok name) as Hname0.
    { pose proof Hlink as Hlink'. apply getitem_Ok in Hlink' as [Hin ->].
      apply getitem_Ok in Hname as [Hin' ->].
      assert (length (ffill (column "link_to_data_source" df0)) = len df0)
        as Hlen by by rewrite length_ffill, length_column.
      apply elem_of_columns_setitem in Hin' as [Hin' | ?]; [|done].
      rewrite column_setitem by auto. rewrite decide_False by done.
      by apply getitem_column. }
    destruct (Hstep link name Hlink Hname0) as [Hlen _].
    apply radd_str_inv in Hmn as (Htext & _ & ->).
    pose proof Hname0 as Hname1. apply getitem_Ok in Hname1 as [_ Hcol].
    assert (length name = len df0) as Hlen_name
      by (rewrite Hcol; apply length_column).
    exists name. split; [done |]. split; [done |]. split.
    + rewrite getitem_setitem.
      * by rewrite decide_True.
      * by rewrite length_fmap, len_setitem.
      * by right.
    + rewrite !len_setitem; [done.. |].
      by rewrite length_fmap, len_setitem.
  - intros link name c Hlink Hname Hc Hnot. rewrite Hlink, bind_Ok.
    destruct (Hstep link name Hlink Hname) as [_ ->]. rewrite bind_Ok.
    by rewrite (radd_str_Err "e_" name c).
Qed.

Lemma str_cell_text_or_null f s : Forall text_or_null (str_cell f <$> s).
Proof.
  apply Forall_fmap, Forall_true.
  intros [[x|z|g]|]; cbn; [right; eauto | by left..].
Qed.

(** X15: the outcomes cell, on a sheet whose cleaned labels are pairwise
    distinct and whose declared names are texts, numbers or nulls as a
    workbook gives them.  It raises [KeyError] for
    a sheet without a [name] column, and [AttributeError] for a [name]
    column that has rows and holds no text, since such a column has no
    [.str]; it raises for nothing else.  When it returns, it names each
    variable [o_] followed by its declared name with [quantitiy] spelled
    [quantity]; a declared name that is not a text, which stops the
    environmental cell, gives a null name here. *)
Theorem outcomes_cell_spec sheet :
  NoDup (columns (map_columns clean_sheet_label (drop_columns 4 sheet))) →
  (∀ g, Some (Shape g)
        ∉ column "name" (map_columns clean_sheet_label (drop_columns 4 sheet))) →
  match outcomes_cell sheet with
  | Ok df =>
      ∃ name,
        getitem "name" (map_columns clean_sheet_label (drop_columns 4 sheet))
        = Ok name
        ∧ object_column name = true
        ∧ getitem "medsat_name" df = Ok (outcome_name <$> name)
        ∧ len df = len sheet
  | Err e =>
      (e = KeyError "name"
       ∧ "name" ∉ columns (map_columns clean_sheet_label (drop_columns 4 sheet)))
      ∨ (e = AttributeError
         ∧ ∃ name,
             getitem "name"
               (map_columns clean_sheet_label (drop_columns 4 sheet))
             = Ok name
             ∧ object_column name = false)
  end.
Proof.
  intros _ _. unfold outcomes_cell.
  set (df0 := map_columns clean_sheet_label (drop_columns 4 sheet)).
  destruct (decide ("name" ∈ columns df0)) as [Hin | Hnot].
  - rewrite (getitem_column _ _ Hin), bind_Ok.
    set (name := column "name" df0).
    unfold str_map. destruct (object_column name) eqn:Hobj.
    + rewrite bind_Ok.
      rewrite radd_str_Ok
        by (apply str_cell_text_or_null || by rewrite object_column_str_cell).
      rewrite bind_Ok.
      assert (length name = len df0) as Hlen by apply length_column.
      exists name. split; [done |]. split; [done |]. split.
      * rewrite getitem_setitem.
        -- rewrite decide_True by done. f_equal.
           rewrite <- list_fmap_compose. apply list_fmap_ext.
           intros _ [[x|z|g]|] _; reflexivity.
        -- by rewrite !length_fmap.
        -- by right.
      * rewrite len_setitem by by rewrite !length_fmap.
        unfold df0, len, map_columns, drop_columns. cbn [rows].
        by rewrite length_fmap.
    + rewrite bind_Err. right. split; [done |]. by exists name.
  - rewrite (getitem_missing _ _ Hnot), bind_Err. by left.
Qed.

End MetadataFacts.

(** ** The auxiliary sheet, the variable table, the gap check *)

Section CatalogueMoreFacts.
Import Frame MedSat Normalizer Names Examples.
Implicit Types (df sheet : DataFrame) (s : list cell).

Ltac closed_labels := apply (bool_decide_unpack _); vm_compute; exact I.


Lemma column_pd_concat dfs (c : string) :
  c ∈ concat_columns dfs → column c (pd_concat dfs) = dfs ≫= column c.
Proof.
  intros Hc. unfold column at 1. rewrite rows_pd_concat.
  cbn [columns pd_concat]. revert Hc.
  generalize (concat_columns dfs). intros cols Hc.
  induction dfs as [|df dfs IH]; [done |].
  rewrite !bind_cons, fmap_app, IH. f_equal.
  unfold column. rewrite <- list_fmap_compose. apply list_fmap_ext.
  intros _ r _. unfold compose. by rewrite cell_at_reindex.
Qed.

Lemma column_missing (c : string) df :
  c ∉ columns df → column c df = replicate (len df) None.
Proof.
  intros Hnot. unfold column, len.
  induction (rows df) as [|r rs IH]; [done |].
  cbn. by rewrite cell_at_missing, IH.
Qed.




Lemma category_part_Ok cols category df part :
  category_part cols category df = Ok part →
  "category" ∉ cols →
  columns part = cols ++ ["category"]
  ∧ len part = len df
  ∧ column "category" part = replicate (len df) (Some (Str category))
  ∧ ∀ c : string, c ∈ cols → column c part = column c df.
Proof.
  unfold category_part. intros Hpart Hcat.
  apply bind_Ok_inv in Hpart as (sel & Hsel & Hpart).
  injection Hpart as <-. apply select_Ok in Hsel as ->.
  set (sel := {| columns := cols; rows := _ |}).
  assert (len sel = len df) as Hlen by apply len_select_rows.
  unfold assign_scalar.
  assert (length (replicate (len sel) (Some (Str category))) = len sel)
    as Hrep by apply length_replicate.
  split; [|split; [|split]].
  - unfold setitem. cbn [columns]. by rewrite bool_decide_eq_false_2.
  - by rewrite len_setitem.
  - rewrite column_setitem by auto. rewrite decide_True by done.
    by rewrite Hlen.
  - intros c Hc. rewrite column_setitem by auto.
    rewrite decide_False by (intros ->; done).
    unfold column, sel. cbn [columns rows].
    rewrite <- list_fmap_compose. apply list_fmap_ext.
    intros _ r _. unfold compose. by rewrite cell_at_reindex.
Qed.

(** X17: the variable table has the columns [medsat_name], [type] and
    [category] and one row for every row of the four sheets, in the order
    sociodemographic, environmental, outcomes, auxiliary.  Names and
    types are those of the sheets, each row carries the category of its
    sheet, and an auxiliary row has a null type whatever the auxiliary
    frame holds. *)
Theorem variables_cell_spec
    (sociodemographic environmental outcomes auxiliary vars : DataFrame) :
  variables_cell sociodemographic environmental outcomes auxiliary = Ok vars →
  columns vars = ["medsat_name"; "type"; "category"]
  ∧ column "medsat_name" vars
    = column "medsat_name" sociodemographic
      ++ column "medsat_name" environmental
      ++ column "medsat_name" outcomes
      ++ column "medsat_name" auxiliary
  ∧ column "type" vars
    = column "type" sociodemographic
      ++ column "type" environmental
      ++ column "type" outcomes
      ++ replicate (len auxiliary) None
  ∧ column "category" vars
    = replicate (len sociodemographic) (txt "sociodemographic")
      ++ replicate (len environmental) (txt "environmental")
      ++ replicate (len outcomes) (txt "outcomes")
      ++ replicate (len auxiliary) (txt "auxiliary").
Proof.
  unfold variables_cell. intros Hvars.
  apply bind_Ok_inv in Hvars as (s' & Hs & Hvars).
  apply bind_Ok_inv in Hvars as (e' & He & Hvars).
  apply bind_Ok_inv in Hvars as (o' & Ho & Hvars).
  apply bind_Ok_inv in Hvars as (a' & Ha & Hvars).
  injection Hvars as <-.
  apply category_part_Ok in Hs as (Hs_cols & Hs_len & Hs_cat & Hs_col);
    [|closed_labels].
  apply category_part_Ok in He as (He_cols & He_len & He_cat & He_col);
    [|closed_labels].
  apply category_part_Ok in Ho as (Ho_cols & Ho_len & Ho_cat & Ho_col);
    [|closed_labels].
  apply category_part_Ok in Ha as (Ha_cols & Ha_len & Ha_cat & Ha_col);
    [|closed_labels].
  assert (concat_columns [s'; e'; o'; a'] = ["medsat_name"; "type"; "category"])
    as Hcols.
  { unfold concat_columns. cbn [foldl].
    rewrite Hs_cols, He_cols, Ho_cols, Ha_cols. reflexivity. }
  split; [exact Hcols |].
  rewrite !column_pd_concat by (rewrite Hcols; closed_labels).
  cbn [mbind list_bind]. rewrite !app_nil_r.
  rewrite Hs_cat, He_cat, Ho_cat, Ha_cat.
  rewrite !Hs_col, !He_col, !Ho_col, !Ha_col by closed_labels.
  split; [done |]. split; [|done].
  do 3 f_equal. rewrite <- Ha_len. apply column_missing.
  rewrite Ha_cols. closed_labels.
Qed.

(** X18: the gap check raises only for a variable table without a
    [medsat_name] column.  Its report holds exactly the columns of the
    frame that no record names and the names of records that are no
    column of the frame, a null name among them: a record without a
    resolved name is always reported.  The report is empty only if every
    column has a record and every record names a column. *)
Theorem gap_check_spec (medsat variables : DataFrame) :
  match gap_check medsat variables with
  | Ok gap =>
      ∃ names, getitem "medsat_name" variables = Ok names
        ∧ (∀ x : cell, x ∈ gap ↔
             ((x ∉ names) ∧ ∃ c, c ∈ columns medsat ∧ x = Some (Str c))
             ∨ (x ∈ names ∧ ∀ c, c ∈ columns medsat → x ≠ Some (Str c)))
        ∧ (None ∈ names → None ∈ gap)
        ∧ (gap = ∅ →
             (∀ c, c ∈ columns medsat → Some (Str c) ∈ names)
             ∧ (∀ n, n ∈ names → ∃ c, c ∈ columns medsat ∧ n = Some (Str c)))
  | Err e =>
      e = KeyError "medsat_name" ∧ "medsat_name" ∉ columns variables
  end.
Proof.
  unfold gap_check.
  destruct (decide ("medsat_name" ∈ columns variables)) as [Hin | Hnot];
    [|by rewrite (getitem_missing _ _ Hnot), bind_Err].
  rewrite (getitem_column _ _ Hin), bind_Ok.
  set (names := column "medsat_name" variables).
  exists names. split; [done |].
  assert (∀ x : cell,
            x ∈ symmetric_difference
                  (list_to_set ((λ c, Some (Str c)) <$> columns medsat))
                  (list_to_set names)
            ↔ ((x ∉ names) ∧ ∃ c, c ∈ columns medsat ∧ x = Some (Str c))
              ∨ (x ∈ names ∧ ∀ c, c ∈ columns medsat → x ≠ Some (Str c)))
    as Hgap.
  { intros x. unfold symmetric_difference.
    rewrite elem_of_union, !elem_of_difference, !elem_of_list_to_set.
    rewrite list_elem_of_fmap. split.
    - intros [[(c & -> & Hc) Hn] | [Hn Hc]].
      + left. eauto.
      + right. split; [done |]. intros c Hc' ->. apply Hc. eauto.
    - intros [[Hn (c & Hc & ->)] | [Hn Hc]].
      + left. eauto.
      + right. split; [done |]. intros (c & -> & Hc'). by eapply Hc. }
  split; [exact Hgap |]. split.
  - intros Hnull. apply Hgap. right. split; [done |]. done.
  - intros Hempty. split.
    + intros c Hc. destruct (decide (Some (Str c) ∈ names)) as [|Hn]; [done |].
      assert (Some (Str c) ∈ (∅ : gset cell)) as Hx.
      { rewrite <- Hempty. apply Hgap. left. eauto. }
      by apply not_elem_of_empty in Hx.
    + intros n Hn.
      destruct (decide (n ∈ ((λ c, Some (Str c)) <$> columns medsat)))
        as [Hc | Hc].
      * apply list_elem_of_fmap in Hc as (c & -> & Hc). eauto.
      * assert (n ∈ (∅ : gset cell)) as Hx.
        { rewrite <- Hempty. apply Hgap. right. split; [done |].
          intros c Hc' ->. apply Hc. apply list_elem_of_fmap. eauto. }
        by apply not_elem_of_empty in Hx.
Qed.

End CatalogueMoreFacts.

(** ** The sociodemographic sheet and the match *)

Section SociodemographicFacts.
Import Frame MedSat Normalizer Names Examples.
Implicit Types (df sheet : DataFrame) (s : list cell).

Lemma ffill_from_idempotent prev s :
  ffill_from prev (ffill_from prev s) = ffill_from prev s.
Proof.
  revert prev. induction s as [|[v|] s IH]; intros prev; [done | |].
  - cbn [ffill_from]. by rewrite IH.
  - cbn [ffill_from]. destruct prev as [w|]; cbn [ffill_from]; by rewrite IH.
Qed.

Lemma ffill_from_no_null prev s : None ∉ s → ffill_from prev s = s.
Proof.
  revert prev. induction s as [|[v|] s IH]; intros prev Hnot; [done | |].
  - cbn [ffill_from]. rewrite IH; [done |].
    intros Hin. apply Hnot. by right.
  - destruct Hnot. left.
Qed.

(** X19: forward filling is idempotent, leaves a column without nulls as
    it is, and keeps the length of the column; after it a null can only
    stand above the first value of the column. *)
Theorem ffill_stable s :
  ffill (ffill s) = ffill s
  ∧ length (ffill s) = length s
  ∧ (None ∉ s → ffill s = s)
  ∧ ∀ i j : nat, (i ≤ j)%nat → is_Some (mjoin (s !! i)) →
      (j < length s)%nat → is_Some (mjoin (ffill s !! j)).
Proof.
  split; [apply ffill_from_idempotent |].
  split; [apply length_ffill |].
  split; [apply ffill_from_no_null |].
  intros i j Hij Hv Hj.
  destruct (s !! i) as [[v'|]|] eqn:Hsi;
    [|by destruct Hv as [? [=]]..].
  clear Hv. rewrite ffill_lookup.
  destruct (s !! j) as [[w|]|] eqn:Hsj.
  - by eexists.
  - cbn. unfold spec_nearest_preceding.
    assert (i < j)%nat as Hlt.
    { destruct (decide (i = j)) as [Heq | ?]; [|lia].
      subst. pose proof (eq_trans (eq_sym Hsi) Hsj) as Hcontra.
      discriminate Hcontra. }
    assert (v' ∈ omap id (take j s)) as Hin.
    { apply list_elem_of_omap. exists (Some v'). split; [|done].
      apply list_elem_of_lookup. exists i.
      rewrite lookup_take_lt by lia. done. }
    destruct (omap id (take j s)) as [|x xs] eqn:Hl;
      [by apply not_elem_of_nil in Hin |].
    rewrite last_cons. destruct (last xs); by eexists.
  - apply lookup_ge_None in Hsj. lia.
Qed.

(** X20: when it returns, on a sheet whose cleaned labels are pairwise
    distinct, the sociodemographic cell keeps the columns of the sheet,
    in their order, and every row.  Apart from the two filled columns
    only [type] changes: a text there is stripped of white space at its
    ends and has each pair of spaces replaced by one space, going once
    from the left; a cell that is not a text becomes null. *)
Theorem sociodemographic_cell_shape sheet df :
  NoDup (columns (sociodemographic_labelled sheet)) →
  sociodemographic_cell sheet = Ok df →
  columns df = columns (sociodemographic_labelled sheet)
  ∧ len df = len sheet
  ∧ column "type" df
    = str_cell (replace "  " " ")
      <$> (str_cell strip
           <$> column "type" (sociodemographic_labelled sheet))
  ∧ ∀ c : string,
      c ∈ columns (sociodemographic_labelled sheet) →
      c ∉ ["more_info"; "year"; "type"] →
      column c df = column c (sociodemographic_labelled sheet).
Proof.
  unfold sociodemographic_cell.
  set (df1 := sociodemographic_labelled sheet).
  intros _ Hcell.
  apply bind_Ok_inv in Hcell as (mi & Hmi & Hcell).
  apply bind_Ok_inv in Hcell as (y & Hy & Hcell).
  apply bind_Ok_inv in Hcell as (y' & Hy' & Hcell).
  apply bind_Ok_inv in Hcell as (ty & Hty & Hcell).
  apply bind_Ok_inv in Hcell as (stripped & Hstripped & Hcell).
  apply bind_Ok_inv in Hcell as (replaced & Hreplaced & Hcell).
  injection Hcell as <-.
  apply getitem_Ok in Hmi as [Hmi_in ->].
  set (df2 := setitem "more_info" (ffill (column "more_info" df1)) df1) in *.
  assert (length (ffill (column "more_info" df1)) = len df1) as Hlen1
    by by rewrite length_ffill, length_column.
  assert (len df2 = len df1) as Hlen2 by by apply len_setitem.
  assert (columns df2 = columns df1) as Hcols2
    by by apply columns_setitem_existing.
  apply getitem_Ok in Hy as [Hy_in ->].
  apply length_astype_int in Hy'.
  set (df3 := setitem "year" y' df2) in *.
  assert (length y' = len df2) as Hlen3
    by by rewrite Hy', length_ffill, length_column.
  assert (len df3 = len df1) as Hlen4
    by (unfold df3; by rewrite len_setitem).
  assert (columns df3 = columns df1) as Hcols3.
  { unfold df3. by rewrite columns_setitem_existing. }
  apply getitem_Ok in Hty as [Hty_in ->].
  apply str_map_Ok in Hstripped as [_ ->].
  apply str_map_Ok in Hreplaced as [_ ->].
  set (ty := str_cell (replace "  " " ")
             <$> (str_cell strip <$> column "type" df3)).
  assert (length ty = len df3) as Hlen5
    by (unfold ty; by rewrite !length_fmap, length_column).
  assert (∀ c : string, c ∈ columns df1 → c ≠ "more_info" → c ≠ "year" →
            column c df3 = column c df1) as Hkeep.
  { intros c Hc Hn1 Hn2. unfold df3.
    rewrite column_setitem by (rewrite ?Hcols2; auto).
    rewrite decide_False by done. unfold df2.
    rewrite column_setitem by auto. by rewrite decide_False. }
  assert ("type" ∈ columns df1) as Hty_in1 by by rewrite <- Hcols3.
  split; [by rewrite columns_setitem_existing |].
  split.
  { rewrite len_setitem by done. rewrite Hlen4.
    unfold df1, sociodemographic_labelled, rename, map_columns, drop_columns,
      len. cbn [rows]. by rewrite length_fmap. }
  split.
  - rewrite column_setitem by auto. rewrite decide_True by done.
    unfold ty. by rewrite Hkeep.
  - intros c Hc Hother. rewrite !not_elem_of_cons in Hother.
    destruct Hother as (Hn1 & Hn2 & Hn3 & _).
    rewrite column_setitem by (rewrite ?Hcols3; auto).
    rewrite decide_False by done. by apply Hkeep.
Qed.

(** X21: the match cell offers the matcher the columns of the merged
    frame that begin with [c_] and nothing else.  With a matcher that
    answers only with one of the candidates it was given, every resolved
    name of the sociodemographic sheet is a column of the merged frame
    beginning with [c_], or null; no row is added or dropped. *)
Theorem match_cell_resolves
    (find_best_match : cell → gset string → cell)
    (medsat sociodemographic out : DataFrame) :
  (∀ n candidates v, find_best_match n candidates = Some v →
     ∃ c, v = Str c ∧ c ∈ candidates) →
  match_cell find_best_match medsat sociodemographic = Ok out →
  len out = len sociodemographic
  ∧ ∀ x, x ∈ column "medsat_name" out →
      x = None
      ∨ ∃ c, x = Some (Str c) ∧ c ∈ columns medsat
             ∧ String.prefix "c_" c = true.
Proof.
  intros Hfbm Hcell. unfold match_cell in Hcell.
  apply bind_Ok_inv in Hcell as (name & Hname & Hcell).
  injection Hcell as <-.
  apply getitem_Ok in Hname as [Hin ->].
  set (name := column "name" sociodemographic).
  assert (length ((λ n, find_best_match n (c_columns medsat)) <$> name)
          = len sociodemographic) as Hlen
    by (unfold name; by rewrite length_fmap, length_column).
  split; [by apply len_setitem |].
  intros x Hx. rewrite column_setitem in Hx by auto.
  rewrite decide_True in Hx by done.
  apply list_elem_of_fmap in Hx as (n & -> & _).
  destruct (find_best_match n (c_columns medsat)) as [v|] eqn:Hv;
    [|by left].
  right. destruct (Hfbm _ _ _ Hv) as (c & -> & Hc).
  exists c. split; [done |]. unfold c_columns in Hc.
  apply elem_of_list_to_set, list_elem_of_filter in Hc as [Hp Hc]. done.
Qed.

End SociodemographicFacts.

(** ** The Extract loops *)

Section DownloadFacts.
Import Download Labels.
Context {E : Type}.
Implicit Types (fetch : string → @outcome E) (st : @run_state)
  (fs : gmap string node) (files : list string).

Lemma download_effect fetch tmp files st st' err :
  download fetch tmp files st = (st', err) →
  (∀ p, is_Some (st.1 !! p) → st'.1 !! p = st.1 !! p)
  ∧ ∃ asked, st'.2 = st.2 ++ asked
      ∧ (∀ f, f ∈ asked →
           f ∈ files ∧ st.1 !! out_path tmp (last_part f) = None)
      ∧ (err = None →
           ∀ f, f ∈ files → is_Some (st'.1 !! out_path tmp (last_part f))).
Proof.
  revert st. induction files as [|f files IH]; intros st Hrun.
  - injection Hrun as <- <-. split; [done |]. exists [].
    split; [by rewrite app_nil_r |]. split.
    + intros f Hf. by apply not_elem_of_nil in Hf.
    + intros _ f Hf. by apply not_elem_of_nil in Hf.
  - cbn [download] in Hrun.
    set (out := out_path tmp (last_part f)) in *.
    destruct (st.1 !! out) as [n|] eqn:Hout.
    + destruct (IH st Hrun) as (Hkeep & asked & Hlog & Hasked & Hall).
      split; [done |]. exists asked. split; [done |]. split.
      * intros g Hg. destruct (Hasked g Hg). split; [by right | done].
      * intros Herr g Hg. apply elem_of_cons in Hg as [-> | Hg].
        -- fold out. rewrite Hkeep by by rewrite Hout. by rewrite Hout.
        -- by apply Hall.
    + destruct (fetch f) as [data | partial e | e] eqn:Hfetch.
      * destruct (IH _ Hrun) as (Hkeep & asked & Hlog & Hasked & Hall).
        cbn [fst snd] in *. split.
        -- intros p Hp. rewrite Hkeep.
           ++ apply lookup_insert_ne. intros <-. rewrite Hout in Hp.
              by destruct Hp.
           ++ rewrite lookup_insert_ne; [done |]. intros <-.
              rewrite Hout in Hp. by destruct Hp.
        -- exists (f :: asked). split; [by rewrite Hlog, <- app_assoc |].
           split.
           ++ intros g Hg. apply elem_of_cons in Hg as [-> | Hg].
              ** split; [left | done].
              ** destruct (Hasked g Hg) as [Hin Hnone].
                 split; [by right |].
                 apply lookup_insert_None in Hnone as [? _]. done.
           ++ intros Herr g Hg. apply elem_of_cons in Hg as [-> | Hg].
              ** fold out. rewrite Hkeep by (rewrite lookup_insert_eq; eauto).
                 rewrite lookup_insert_eq. eauto.
              ** by apply Hall.
      * injection Hrun as <- <-. cbn [fst snd]. split.
        -- intros p Hp. apply lookup_insert_ne. intros <-.
           rewrite Hout in Hp. by destruct Hp.
        -- exists [f]. split; [done |]. split; [|done].
           intros g Hg. apply list_elem_of_singleton in Hg as ->.
           split; [left | done].
      * injection Hrun as <- <-. cbn [fst snd]. split; [done |].
        exists [f]. split; [done |]. split; [|done].
        intros g Hg. apply list_elem_of_singleton in Hg as ->.
        split; [left | done].
Qed.

Lemma download_nothing_missing fetch tmp files st :
  (∀ f, f ∈ files → is_Some (st.1 !! out_path tmp (last_part f))) →
  download fetch tmp files st = (st, None).
Proof.
  induction files as [|f files IH]; intros Hall; [done |].
  cbn [download]. destruct (Hall f) as [n ->]; [left |].
  apply IH. intros g Hg. apply Hall. by right.
Qed.

(** X22: neither Extract loop touches a path that exists: every local
    file or folder that was there before the run is there unchanged
    after it, whether the run ends well or not.  The remote files asked
    for are files of the list whose local path did not exist, and after
    a run without exception every file of the list has its local path. *)
Theorem download_keeps_existing fetch tmp files fs st' err :
  download fetch tmp files (fs, []) = (st', err) →
  (∀ p, is_Some (fs !! p) → st'.1 !! p = fs !! p)
  ∧ (∀ f, f ∈ st'.2 →
       f ∈ files ∧ fs !! out_path tmp (last_part f) = None)
  ∧ (err = None →
       ∀ f, f ∈ files → is_Some (st'.1 !! out_path tmp (last_part f))).
Proof.
  intros Hrun.
  destruct (download_effect _ _ _ _ _ _ Hrun)
    as (Hkeep & asked & Hlog & Hasked & Hall).
  cbn [fst snd] in *. rewrite app_nil_l in Hlog. rewrite Hlog. done.
Qed.

(** X23: running an Extract cell again after a run without exception
    asks for no remote file and changes no local file, whatever the
    remote side would answer by then. *)
Theorem download_rerun fetch fetch' tmp files fs st' :
  download fetch tmp files (fs, []) = (st', None) →
  download fetch' tmp files (st'.1, []) = ((st'.1, []), None).
Proof.
  intros Hrun. apply download_nothing_missing.
  destruct (download_effect _ _ _ _ _ _ Hrun) as (_ & _ & _ & _ & Hall).
  cbn [fst]. by apply Hall.
Qed.

Lemma download_error fetch tmp files st st' e :
  download fetch tmp files st = (st', Some e) →
  ∃ f, f ∈ files ∧ last st'.2 = Some f
    ∧ ((∃ partial, fetch f = Cut partial e
          ∧ st'.1 !! out_path tmp (last_part f) = Some (File partial))
       ∨ (fetch f = NotOpened e
          ∧ st'.1 !! out_path tmp (last_part f) = None)).
Proof.
  revert st. induction files as [|f files IH]; intros st Hrun; [done |].
  cbn [download] in Hrun.
  set (out := out_path tmp (last_part f)) in *.
  destruct (st.1 !! out) as [n|] eqn:Hout.
  - destruct (IH st Hrun) as (g & Hg & Hrest). exists g.
    split; [by right | done].
  - destruct (fetch f) as [data | partial e' | e'] eqn:Hfetch.
    + destruct (IH _ Hrun) as (g & Hg & Hrest). exists g.
      split; [by right | done].
    + injection Hrun as <- <-. exists f. cbn [fst snd].
      split; [left |]. split; [by rewrite last_snoc |].
      left. exists partial. split; [done |]. apply lookup_insert_eq.
    + injection Hrun as <- <-. exists f. cbn [fst snd].
      split; [left |]. split; [by rewrite last_snoc |].
      right. done.
Qed.

(** X24: a broken FTP transfer is never repaired by running the cell
    again.  When the FTP cell ends with an exception, the file it was
    retrieving is the last one asked for and its local file holds what
    had arrived; since that path now exists, no later run asks for the
    file or changes the local file, whatever the server answers. *)
Theorem ftp_failure_sticks
    (retrbinary retrbinary' : string → @ftp_reply E)
    tmp files fs st' e :
  ftp_download retrbinary tmp files (fs, []) = (st', Some e) →
  ∃ f partial,
    f ∈ files ∧ last st'.2 = Some f
    ∧ retrbinary f = RetrFailed partial e
    ∧ st'.1 !! out_path tmp (last_part f) = Some (File partial)
    ∧ ∀ files' st'' err,
        ftp_download retrbinary' tmp files' (st'.1, []) = (st'', err) →
        (f ∉ st''.2)
        ∧ st''.1 !! out_path tmp (last_part f) = Some (File partial).
Proof.
  unfold ftp_download. intros Hrun.
  destruct (download_error _ _ _ _ _ _ Hrun)
    as (f & Hf & Hlast & [(partial & Hfetch & Hfile) | [Hfetch _]]).
  - exists f, partial. split; [done |]. split; [done |].
    split; [by destruct (retrbinary f); simplify_eq |].
    split; [done |].
    intros files' st'' err Hrun'.
    destruct (download_effect _ _ _ _ _ _ Hrun')
      as (Hkeep & asked & Hlog & Hasked & _).
    cbn [fst snd] in *. rewrite app_nil_l in Hlog. split.
    + rewrite Hlog. intros Hin. destruct (Hasked f Hin) as [_ Hnone].
      congruence.
    + rewrite Hkeep by (rewrite Hfile; eauto). done.
  - by destruct (retrbinary f).
Qed.

(** X25: the CDRC cell asks before it opens the local file.  When it
    ends with an exception, the file it was fetching is the last one
    asked for, and either the request itself failed and no local file
    was made, so that a later run asks again, or reading the body failed
    and an empty local file is left. *)
Theorem cdrc_failure (get : string → @cdrc_reply E) tmp files fs st' e :
  cdrc_download get tmp files (fs, []) = (st', Some e) →
  ∃ url,
    url ∈ files ∧ last st'.2 = Some url
    ∧ ((get url = GetFailed e
        ∧ st'.1 !! out_path tmp (last_part url) = None)
       ∨ (get url = ContentFailed e
          ∧ st'.1 !! out_path tmp (last_part url) = Some (File ""))).
Proof.
  unfold cdrc_download. intros Hrun.
  destruct (download_error _ _ _ _ _ _ Hrun)
    as (url & Hurl & Hlast & [(partial & Hfetch & Hfile) | [Hfetch Hnone]]).
  - exists url. split; [done |]. split; [done |]. right.
    destruct (get url); simplify_eq. done.
  - exists url. split; [done |]. split; [done |]. left.
    destruct (get url); simplify_eq. done.
Qed.

Lemma last_part_go_no_slash cur s :
  all_chars no_slash s = true → last_part_go cur s = cur +:+ s.
Proof.
  revert cur. induction s as [|a s IH]; intros cur Hs.
  - by rewrite append_nil_r.
  - cbn [all_chars] in Hs. apply andb_prop in Hs as [Ha Hs].
    cbn [last_part_go]. unfold no_slash in Ha.
    destruct (Ascii.eqb a "/"); [done |].
    rewrite IH by done. by rewrite append_assoc.
Qed.

Lemma last_part_go_all_chars cur s :
  all_chars no_slash cur = true →
  all_chars no_slash (last_part_go cur s) = true.
Proof.
  revert cur. induction s as [|a s IH]; intros cur Hcur; [done |].
  cbn [last_part_go]. destruct (Ascii.eqb a "/") eqn:Ha.
  - by apply IH.
  - apply IH. rewrite all_chars_append, Hcur. cbn [all_chars].
    unfold no_slash. by rewrite Ha.
Qed.

Lemma last_part_go_slash cur dir name :
  last_part_go cur (dir +:+ "/" +:+ name) = last_part name.
Proof.
  revert cur. induction dir as [|a dir IH]; intros cur.
  - reflexivity.
  - rewrite append_cons. cbn [last_part_go].
    destruct (Ascii.eqb a "/"); apply IH.
Qed.

(** X26: the local name of a remote file is what follows its last
    slash: it never holds a slash, a path without slash is its own local
    name, and for a name without slash [dir/name] has the local name
    [name], whatever [dir] is. *)
Theorem last_part_spec dir name :
  all_chars no_slash (last_part dir) = true
  ∧ (all_chars no_slash name = true →
       last_part name = name ∧ last_part (dir +:+ "/" +:+ name) = name).
Proof.
  split; [by apply last_part_go_all_chars |].
  intros Hname.
  assert (last_part name = name) as Hself
    by (unfold last_part; by rewrite last_part_go_no_slash).
  split; [done |]. unfold last_part. by rewrite last_part_go_slash.
Qed.

End DownloadFacts.

(** ** The names of the chunk files *)

Section ChunkFileFacts.
Import Partitioner ChunkFiles.

Lemma pretty_N_go_head (x : N) (s : string) :
  (0 < x)%N →
  ∃ a t, pretty_N_go x s = String a t ∧ a ≠ "0"%char.
Proof.
  revert s. induction (N.lt_wf_0 x) as [x _ IH]; intros s Hx.
  rewrite pretty_N_go_step by done.
  destruct (decide (x < 10)%N) as [Hsmall | Hbig].
  - rewrite N.div_small, pretty_N_go_0 by done.
    rewrite N.mod_small by done. eexists _, _. split; [reflexivity |].
    assert (x = 1 ∨ x = 2 ∨ x = 3 ∨ x = 4 ∨ x = 5 ∨ x = 6
            ∨ x = 7 ∨ x = 8 ∨ x = 9)%N as Hcases by lia.
    destruct Hcases as [-> | [-> | [-> | [-> | [-> | [-> | [-> | [-> | ->]]]]]]]];
      discriminate.
  - apply IH.
    + apply N.div_lt; lia.
    + apply N.div_str_pos. lia.
Qed.

(** The digits of an integer begin with [0] only for zero itself. *)
Lemma pretty_Z_head_zero (n : Z) (t : string) :
  pretty n = String "0" t → n = 0.
Proof.
  destruct n as [|p|p]; [done | |].
  - unfold pretty, pretty_Z, pretty, pretty_positive, pretty, pretty_N.
    rewrite decide_False by done.
    destruct (pretty_N_go_head (N.pos p) "") as (a & t' & -> & Ha); [lia |].
    intros [= Ha' _]. by destruct Ha.
  - unfold pretty, pretty_Z. intros Heq. discriminate Heq.
Qed.

Lemma format_02d_inj : Inj (=) (=) format_02d.
Proof.
  intros n m. unfold format_02d.
  destruct (Nat.ltb_spec (String.length (pretty n)) 2) as [Hn | Hn];
    destruct (Nat.ltb_spec (String.length (pretty m)) 2) as [Hm | Hm].
  - intros [= Heq]. by apply (inj pretty).
  - intros Heq. symmetry in Heq. apply pretty_Z_head_zero in Heq as ->.
    cbn in Hm. lia.
  - intros Heq. apply pretty_Z_head_zero in Heq as ->. cbn in Hn. lia.
  - apply (inj pretty).
Qed.

Lemma append_inj_r (s t u : string) : s +:+ u = t +:+ u → s = t.
Proof.
  revert t. induction s as [|a s IH]; intros [|b t] Heq.
  - done.
  - apply (f_equal String.length) in Heq.
    rewrite !length_append in Heq. cbn [String.length] in Heq. lia.
  - apply (f_equal String.length) in Heq.
    rewrite !length_append in Heq. cbn [String.length] in Heq. lia.
  - rewrite !append_cons in Heq. injection Heq as -> Heq.
    f_equal. by apply IH.
Qed.

Lemma file_name_inj : Inj (=) (=) file_name.
Proof.
  intros n m. unfold file_name. intros Heq.
  apply String.app_inj in Heq. apply append_inj_r in Heq.
  by apply format_02d_inj.
Qed.

(** X27: no file of the Load cell overwrites another: the names of the
    chunk files written in one run are pairwise distinct, however many
    chunks there are, and the file named for chunk number [i + 1] holds
    the rows of the chunk written in turn [i]. *)
Theorem chunk_files_distinct {A : Type} (ss : list A) (k : Z) parts :
  partition ss k = Ok parts →
  NoDup (written parts).*1
  ∧ ∀ (i : nat) p, parts !! i = Some p →
      written parts !! i = Some (file_name (Z.of_nat i + 1), p.2).
Proof.
  unfold partition. destruct (k =? 0); [done |]. intros [= <-].
  unfold written, range. split.
  - rewrite <- !list_fmap_compose.
    rewrite (list_fmap_ext _ (λ i, file_name (i + 1)) (seqZ 0 (n_chunks ss k)))
      by done.
    apply NoDup_fmap_2; [|apply NoDup_seqZ].
    intros i j Hij. apply file_name_inj in Hij. lia.
  - intros i p Hp. rewrite list_lookup_fmap in Hp.
    rewrite !list_lookup_fmap.
    destruct (seqZ 0 (n_chunks ss k) !! i) as [z|] eqn:Hz; [|done].
    cbn [fmap option_fmap option_map] in Hp |- *. injection Hp as <-.
    apply lookup_seqZ in Hz as [-> _].
    unfold chunk. cbn [fst snd]. by rewrite Z.add_0_l.
Qed.

End ChunkFileFacts.

(** ** The filled columns of the metadata sheets *)

Section FillReturns.
Import Frame MedSat Normalizer Names.
Implicit Types (df sheet : DataFrame).

(** The environmental cell returns whatever its link column holds. *)
Lemma environmental_cell_returns sheet link name :
  getitem "link_to_data_source" (environmental_labelled sheet) = Ok link →
  getitem "name" (environmental_labelled sheet) = Ok name →
  Forall text_or_null name → object_column name = true →
  ∃ df, environmental_cell sheet = Ok df
    ∧ getitem "link_to_data_source" df = Ok (ffill link).
Proof.
  unfold environmental_cell. set (df0 := environmental_labelled sheet).
  intros Hlink Hname Htext Hobj. rewrite Hlink, bind_Ok.
  apply getitem_Ok in Hlink as [Hin ->].
  apply getitem_Ok in Hname as [Hin' ->].
  assert (length (ffill (column "link_to_data_source" df0)) = len df0)
    as Hlen by by rewrite length_ffill, length_column.
  rewrite getitem_setitem by auto. rewrite decide_False by done.
  rewrite bind_Ok, radd_str_Ok by done. rewrite bind_Ok.
  eexists. split; [reflexivity |].
  rewrite getitem_setitem.
  - rewrite decide_False by done.
    by rewrite column_setitem, decide_True by auto.
  - by rewrite length_fmap, len_setitem, length_column.
  - left. apply elem_of_columns_setitem. by left.
Qed.

(** The sociodemographic cell returns whatever its more-info column
    holds, when the years can be cast and the type column has [.str]. *)
Lemma sociodemographic_cell_returns sheet more_info year type :
  getitem "more_info" (sociodemographic_labelled sheet) = Ok more_info →
  getitem "year" (sociodemographic_labelled sheet) = Ok year →
  getitem "type" (sociodemographic_labelled sheet) = Ok type →
  Forall exact_or_null year → head year ≠ Some None →
  object_column type = true →
  ∃ df, sociodemographic_cell sheet = Ok df
    ∧ getitem "more_info" df = Ok (ffill more_info)
    ∧ getitem "year" df = Ok (ffill year).
Proof.
  unfold sociodemographic_cell.
  set (df1 := sociodemographic_labelled sheet).
  intros Hmi Hy Hty Hint Hhead Hobj. rewrite Hmi, bind_Ok.
  apply getitem_Ok in Hmi as [Hmi_in ->].
  apply getitem_Ok in Hy as [Hy_in ->].
  apply getitem_Ok in Hty as [Hty_in ->].
  set (df2 := setitem "more_info" (ffill (column "more_info" df1)) df1).
  assert (length (ffill (column "more_info" df1)) = len df1) as Hlen1
    by by rewrite length_ffill, length_column.
  assert (len df2 = len df1) as Hlen2 by by apply len_setitem.
  assert (columns df2 = columns df1) as Hcols2
    by by apply columns_setitem_existing.
  assert (∀ c : string, c ∈ columns df1 → c ≠ "more_info" →
            column c df2 = column c df1) as Hkeep2.
  { intros c Hc Hne. unfold df2. rewrite column_setitem by auto.
    by rewrite decide_False. }
  rewrite (getitem_column "year" df2) by by rewrite Hcols2.
  rewrite Hkeep2 by done. rewrite bind_Ok.
  rewrite astype_int_ffill by done. rewrite decide_False by done.
  rewrite bind_Ok.
  set (df3 := setitem "year" (ffill (column "year" df1)) df2).
  assert (length (ffill (column "year" df1)) = len df2) as Hlen3
    by by rewrite length_ffill, length_column.
  assert (len df3 = len df1) as Hlen4
    by (unfold df3; by rewrite len_setitem).
  assert (columns df3 = columns df1) as Hcols3.
  { unfold df3. rewrite columns_setitem_existing; [done |].
    by rewrite Hcols2. }
  assert (column "type" df3 = column "type" df1) as Hty3.
  { unfold df3. rewrite column_setitem by (rewrite ?Hcols2; auto).
    rewrite decide_False by done. by apply Hkeep2. }
  rewrite (getitem_column "type" df3) by by rewrite Hcols3.
  rewrite Hty3, bind_Ok. unfold str_map. rewrite Hobj, bind_Ok.
  rewrite object_column_str_cell, Hobj, bind_Ok.
  set (ty := str_cell (replace "  " " ")
             <$> (str_cell strip <$> column "type" df1)).
  assert (length ty = len df3) as Hlen5
    by (unfold ty; by rewrite !length_fmap, length_column).
  eexists. split; [reflexivity |]. split.
  - rewrite getitem_setitem by (rewrite ?Hcols3; auto).
    rewrite decide_False by done. unfold df3.
    rewrite column_setitem by (rewrite ?Hcols2; auto).
    rewrite decide_False by done. unfold df2.
    rewrite column_setitem by auto. by rewrite decide_True.
  - rewrite getitem_setitem by (rewrite ?Hcols3; auto).
    rewrite decide_False by done. unfold df3.
    rewrite column_setitem by (rewrite ?Hcols2; auto).
    by rewrite decide_True.
Qed.

(** A sheet whose year column starts with a null stops the cell: after
    the fill the null is still there and cannot be cast. *)
Lemma sociodemographic_cell_leading_null_year sheet more_info year :
  getitem "more_info" (sociodemographic_labelled sheet) = Ok more_info →
  getitem "year" (sociodemographic_labelled sheet) = Ok year →
  Forall exact_or_null year → head year = Some None →
  sociodemographic_cell sheet = Err IntCastingNaNError.
Proof.
  unfold sociodemographic_cell.
  set (df1 := sociodemographic_labelled sheet).
  intros Hmi Hy Hint Hhead. rewrite Hmi, bind_Ok.
  apply getitem_Ok in Hmi as [Hmi_in ->].
  apply getitem_Ok in Hy as [Hy_in ->].
  assert (length (ffill (column "more_info" df1)) = len df1) as Hlen1
    by by rewrite length_ffill, length_column.
  rewrite getitem_setitem by auto. rewrite decide_False by done.
  rewrite bind_Ok, astype_int_ffill by done. by rewrite decide_True.
Qed.

(** C8, as the notebook has it: in the environmental sheet the link to
    the data source, and in the sociodemographic sheet the more-info link
    and the year, are forward filled: a value stays, a null cell takes
    the nearest value above it in its column.  A null with no value above
    it stays null and raises nothing in the two link columns: whatever
    these columns hold, the environmental cell returns when its names
    are texts or nulls in a column of type object, and the
    sociodemographic cell returns when its years are whole numbers of
    magnitude at most 2^53 or nulls, starting with a value, and its type
    column is of type object.
    Under the year a null with no value above it stops the cell,
    because the filled column is cast to integers and a null cannot be
    cast.  The labels of the cleaned sheet are taken pairwise
    distinct. *)
Theorem forward_fill_fields sheet :
  (∀ link name,
     NoDup (columns (environmental_labelled sheet)) →
     getitem "link_to_data_source" (environmental_labelled sheet) = Ok link →
     getitem "name" (environmental_labelled sheet) = Ok name →
     Forall text_or_null name → object_column name = true →
     ∃ df filled,
       environmental_cell sheet = Ok df
       ∧ getitem "link_to_data_source" df = Ok filled
       ∧ forward_filled link filled
       ∧ (head link = Some None → head filled = Some None))
  ∧ (∀ more_info year type,
       NoDup (columns (sociodemographic_labelled sheet)) →
       getitem "more_info" (sociodemographic_labelled sheet) = Ok more_info →
       getitem "year" (sociodemographic_labelled sheet) = Ok year →
       getitem "type" (sociodemographic_labelled sheet) = Ok type →
       Forall exact_or_null year → head year ≠ Some None →
       object_column type = true →
       ∃ df filled_info filled_year,
         sociodemographic_cell sheet = Ok df
         ∧ getitem "more_info" df = Ok filled_info
         ∧ forward_filled more_info filled_info
         ∧ (head more_info = Some None → head filled_info = Some None)
         ∧ getitem "year" df = Ok filled_year
         ∧ forward_filled year filled_year
         ∧ None ∉ filled_year)
  ∧ (∀ more_info year,
       NoDup (columns (sociodemographic_labelled sheet)) →
       getitem "more_info" (sociodemographic_labelled sheet) = Ok more_info →
       getitem "year" (sociodemographic_labelled sheet) = Ok year →
       Forall exact_or_null year → head year = Some None →
       sociodemographic_cell sheet = Err IntCastingNaNError).
Proof.
  split; [|split].
  - intros link name _ Hlink Hname Htext Hobj.
    destruct (environmental_cell_returns sheet link name Hlink Hname Htext Hobj)
      as (df & Hcell & Hdf).
    exists df, (ffill link).
    auto using ffill_forward_filled, ffill_head.
  - intros more_info year type _ Hmi Hy Hty Hint Hhead Hobj.
    destruct (sociodemographic_cell_returns sheet more_info year type
                Hmi Hy Hty Hint Hhead Hobj) as (df & Hcell & Hdf_mi & Hdf_y).
    exists df, (ffill more_info), (ffill year).
    repeat (split; [by auto using ffill_forward_filled, ffill_head |]).
    by rewrite ffill_null_iff.
  - intros more_info year _.
    apply sociodemographic_cell_leading_null_year.
Qed.

End FillReturns.

(** ** The cells on more example frames *)

(** A run that evaluates to a value returns it, and a pair is known
    from its components. *)
Lemma succeeds_Ok {A} (r : result A) :
  match r with Ok _ => True | Err _ => False end → ∃ x, r = Ok x.
Proof. destruct r as [x|e]; [eauto | done]. Qed.

Lemma run_ends {A B} (p : A * B) (b : B) : p.2 = b → p = (p.1, b).
Proof. intros <-. apply surjective_pairing. Qed.

Section MoreRuns.
Import Frame MedSat SpatialSignatures Download ChunkFiles Names Examples
  Samples.

Lemma load_years_witness :
  ∃ st, load lookup_csv geojson_2019 geojson_2020 = Ok st
    ∧ medsat st = None
    ∧ column "year" (medsat_2019 st)
      = replicate (len geojson_2019) (Some (Num 2019))
    ∧ column "year" (medsat_2020 st)
      = replicate (len geojson_2020) (Some (Num 2020))
    ∧ (∀ c, c ∈ columns geojson_2019 → c ≠ "year" →
         column c (medsat_2019 st) = column c geojson_2019)
    ∧ (∀ c, c ∈ columns geojson_2020 → c ≠ "year" →
         column c (medsat_2020 st) = column c geojson_2020).
Proof.
  eexists. split; [vm_compute; reflexivity |].
  apply (load_years lookup_csv geojson_2019 geojson_2020).
  vm_compute. reflexivity.
Defined.

Lemma load_then_schema_assert_witness :
  ∃ st, load lookup_csv geojson_2019 geojson_2020 = Ok st
    ∧ (schema_assert st = Ok st
       ↔ column_set geojson_2019 ∖ {[ "year" ]}
         = column_set geojson_2020 ∖ {[ "year" ]})
    ∧ schema_assert st = Ok st.
Proof.
  eexists. split; [vm_compute; reflexivity |].
  split; [|vm_compute; reflexivity].
  apply (load_then_schema_assert lookup_csv geojson_2019 geojson_2020).
  vm_compute. reflexivity.
Defined.

Lemma rename_geography_code_witness :
  ("LSOA21CD" ∉ columns geojson_2019)
  ∧ rows (rename {[ "geography code" := "LSOA21CD" ]} geojson_2019)
    = rows geojson_2019
  ∧ column "LSOA21CD" (rename {[ "geography code" := "LSOA21CD" ]} geojson_2019)
    = column "geography code" geojson_2019
  ∧ ("geography code"
     ∉ columns (rename {[ "geography code" := "LSOA21CD" ]} geojson_2019))
  ∧ ∀ c, c ≠ "geography code" → c ≠ "LSOA21CD" →
      column c (rename {[ "geography code" := "LSOA21CD" ]} geojson_2019)
      = column c geojson_2019.
Proof.
  assert ("LSOA21CD" ∉ columns geojson_2019) as Hnew
    by (apply (bool_decide_unpack _); vm_compute; exact I).
  split; [exact Hnew |]. exact (rename_geography_code geojson_2019 Hnew).
Defined.

Lemma merge_left_keeps_primary_witness :
  ∃ out, merge_left "LSOA21CD" primary lookup_twice = Ok out
    ∧ (len primary ≤ len out)%nat
    ∧ (∀ l, l ∈ rows primary → ∃ ext, l ++ ext ∈ rows out)
    ∧ (∀ o, o ∈ rows out → ∃ l ext, l ∈ rows primary ∧ o = l ++ ext).
Proof.
  eexists. split; [vm_compute; reflexivity |].
  apply (merge_left_keeps_primary "LSOA21CD" primary lookup_twice).
  vm_compute. reflexivity.
Defined.

Lemma ss_cell_keeps_rows_witness :
  ∃ out, ss_cell gpkg pen_portraits per_geometry = Ok out
    ∧ len out = len gpkg
    ∧ columns out = ["id"; "type"; "geometry"; "description"; "area"]
    ∧ Forall2 (λ l o, ∃ ext, o = l ++ ext) (rows gpkg) (rows out).
Proof.
  assert (∀ c, c ∈ columns gpkg → c ∈ columns pen_portraits → c = "type")
    as Hshare1.
  { intros c Hc Hc'. cbn in Hc'. rewrite !elem_of_cons in Hc'.
    destruct Hc' as [-> | [-> | Hc']];
      [done | | by apply not_elem_of_nil in Hc'].
    exfalso. revert Hc. apply (bool_decide_unpack _). vm_compute. exact I. }
  assert (∀ c, c ∈ columns gpkg ∨ c ∈ columns pen_portraits →
               c ∈ columns per_geometry → c = "id") as Hshare2.
  { intros c Hc Hc'. cbn in Hc'. rewrite !elem_of_cons in Hc'.
    destruct Hc' as [-> | [-> | Hc']];
      [done | | by apply not_elem_of_nil in Hc'].
    exfalso. destruct Hc as [Hc | Hc]; revert Hc;
      apply (bool_decide_unpack _); vm_compute; exact I. }
  assert (Forall (λ r, length r = length (columns gpkg)) (rows gpkg)) as Hwf
    by (repeat constructor).
  apply (ss_cell_keeps_rows gpkg pen_portraits per_geometry);
    first [exact Hshare1 | exact Hshare2 | exact Hwf
          | reflexivity
          | apply (bool_decide_unpack _); vm_compute; exact I].
Defined.

Lemma merge_left_error_witness :
  merge_left "LSOA21CD" primary lookup_numbered = Err ValueError
  ∧ merge_left "RGN22CD" primary lookup = Err (KeyError "RGN22CD").
Proof.
  assert (NoDup (columns primary)) as Hp
    by (apply (bool_decide_unpack _); vm_compute; exact I).
  assert (NoDup (columns lookup)) as Hl
    by (apply (bool_decide_unpack _); vm_compute; exact I).
  assert (NoDup (columns lookup_numbered)) as Hn
    by (apply (bool_decide_unpack _); vm_compute; exact I).
  split.
  - apply (proj2 (merge_left_error "LSOA21CD" primary lookup_numbered
                    ValueError Hp Hn)).
    right. split; [|split; [|left; split; [done | reflexivity]]];
      apply (bool_decide_unpack _); vm_compute; exact I.
  - apply (proj2 (merge_left_error "RGN22CD" primary lookup
                    (KeyError "RGN22CD") Hp Hl)).
    left. split; [done |]. left.
    apply (bool_decide_unpack _). vm_compute. exact I.
Defined.

Lemma outcomes_cell_spec_witness :
  (∃ df, outcomes_cell outcomes_sheet = Ok df
     ∧ getitem "medsat_name" df
       = Ok [txt "o_quantity of prescriptions"; None])
  ∧ outcomes_cell outcomes_sheet_numbered = Err AttributeError.
Proof.
  split.
  - pose proof (outcomes_cell_spec outcomes_sheet) as Hspec.
    destruct (outcomes_cell outcomes_sheet) as [df | e] eqn:Hcell;
      [|by vm_compute in Hcell].
    exists df. split; [done |].
    destruct Hspec as (name & Hname & _ & Hdf & _).
    { apply (bool_decide_unpack _). vm_compute. exact I. }
    { intros g Hin. vm_compute in Hin.
      repeat (apply elem_of_cons in Hin as [Hin | Hin]; [discriminate |]).
      by apply not_elem_of_nil in Hin. }
    assert (name = [txt "quantitiy of prescriptions"; Some (Num 7)]) as ->.
    { vm_compute in Hname. by injection Hname. }
    rewrite Hdf. vm_compute. reflexivity.
  - pose proof (outcomes_cell_spec outcomes_sheet_numbered) as Hspec.
    destruct (outcomes_cell outcomes_sheet_numbered) as [df | e] eqn:Hcell;
      [by vm_compute in Hcell |].
    destruct Hspec as [[_ Hnot] | [-> _]]; [| | |done].
    + apply (bool_decide_unpack _). vm_compute. exact I.
    + intros g Hin. vm_compute in Hin.
      repeat (apply elem_of_cons in Hin as [Hin | Hin]; [discriminate |]).
      by apply not_elem_of_nil in Hin.
    + exfalso. revert Hnot. apply (bool_decide_unpack _). vm_compute. exact I.
Defined.

Lemma forward_fill_fields_witness :
  (∃ df filled,
     environmental_cell environmental_sheet = Ok df
     ∧ getitem "link_to_data_source" df = Ok filled
     ∧ forward_filled [None; txt "https://example.org/air"; None] filled
     ∧ head filled = Some None)
  ∧ (∃ df filled_info filled_year,
       sociodemographic_cell sociodemographic_sheet = Ok df
       ∧ getitem "more_info" df = Ok filled_info
       ∧ forward_filled [txt "https://example.org/census"; None] filled_info
       ∧ getitem "year" df = Ok filled_year
       ∧ forward_filled [Some (Num 2021); None] filled_year
       ∧ None ∉ filled_year)
  ∧ sociodemographic_cell sociodemographic_sheet_no_year
    = Err IntCastingNaNError.
Proof.
  assert (Forall text_or_null [txt "no2"; txt "pm10"; txt "ndvi"]) as Hnames
    by (repeat (constructor; [right; eauto |]); constructor).
  assert (exact_or_null (Some (Num 2021))) as H2021
    by (right; exists 2021; split; [done | by vm_compute]).
  assert (exact_or_null None) as Hnone by by left.
  assert (NoDup (columns (environmental_labelled environmental_sheet)))
    as Hlabels_e by (apply (bool_decide_unpack _); vm_compute; exact I).
  assert (NoDup (columns (sociodemographic_labelled sociodemographic_sheet)))
    as Hlabels_s by (apply (bool_decide_unpack _); vm_compute; exact I).
  assert (NoDup (columns (sociodemographic_labelled
                            sociodemographic_sheet_no_year)))
    as Hlabels_n by (apply (bool_decide_unpack _); vm_compute; exact I).
  split; [|split].
  - destruct (proj1 (forward_fill_fields environmental_sheet)
                [None; txt "https://example.org/air"; None]
                [txt "no2"; txt "pm10"; txt "ndvi"]
                Hlabels_e eq_refl eq_refl Hnames eq_refl)
      as (df & filled & Hcell & Hdf & Hfill & Hhead).
    exists df, filled. auto.
  - assert (head [Some (Num 2021); None] ≠ Some None) as Hhead by done.
    destruct (proj1 (proj2 (forward_fill_fields sociodemographic_sheet))
                [txt "https://example.org/census"; None]
                [Some (Num 2021); None]
                [txt " count"; txt "percent  of total"]
                Hlabels_s eq_refl eq_refl eq_refl
                (Forall_cons_2 _ _ _ H2021 (Forall_cons_2 _ _ _ Hnone
                                              (Forall_nil_2 _)))
                Hhead eq_refl)
      as (df & filled_info & filled_year & Hcell & Hmi & Hfill_mi & _
          & Hy & Hfill_y & Hnull).
    exists df, filled_info, filled_year. auto 10.
  - exact (proj2 (proj2 (forward_fill_fields sociodemographic_sheet_no_year))
             [txt "https://example.org/census"; None]
             [None; Some (Num 2021)]
             Hlabels_n eq_refl eq_refl
             (Forall_cons_2 _ _ _ Hnone (Forall_cons_2 _ _ _ H2021
                                           (Forall_nil_2 _)))
             eq_refl).
Defined.

Lemma medsat_cell_missing_key_witness :
  (∀ c, c ∈ ["geography code"; "LSOA21CD"] →
     (c ∉ columns (medsat_2019 keyless)) ∧ (c ∉ columns (medsat_2020 keyless)))
  ∧ medsat_cell (λ _ df, Ok df) id keyless = Err (KeyError "LSOA21CD")
  ∧ run [medsat_cell (λ _ df, Ok df) id] keyless
    = (keyless, Some (KeyError "LSOA21CD")).
Proof.
  assert (∀ c, c ∈ ["geography code"; "LSOA21CD"] →
            (c ∉ columns (medsat_2019 keyless))
            ∧ (c ∉ columns (medsat_2020 keyless))) as Hmissing.
  { intros c Hc. rewrite !elem_of_cons in Hc.
    destruct Hc as [-> | [-> | Hc]];
      [split; apply (bool_decide_unpack _); vm_compute; exact I.. |].
    by apply not_elem_of_nil in Hc. }
  split; [exact Hmissing |].
  apply (medsat_cell_missing_key (λ _ df, Ok df) id keyless). by left.
Defined.

Lemma variables_cell_spec_witness :
  ∃ vars,
    variables_cell (typed ["c_total"]) (typed ["e_no2"]) (typed [])
      (typed ["LSOA21CD"; "year"]) = Ok vars
    ∧ columns vars = ["medsat_name"; "type"; "category"]
    ∧ column "type" vars = [txt "float"; txt "float"; None; None]
    ∧ column "category" vars
      = [txt "sociodemographic"; txt "environmental";
         txt "auxiliary"; txt "auxiliary"].
Proof.
  eexists. split; [vm_compute; reflexivity |].
  destruct (variables_cell_spec (typed ["c_total"]) (typed ["e_no2"])
              (typed []) (typed ["LSOA21CD"; "year"]) _ eq_refl)
    as (Hcols & _ & Htype & Hcat).
  split; [exact Hcols |]. split; [exact Htype | exact Hcat].
Defined.

Lemma sociodemographic_cell_shape_witness :
  ∃ df, sociodemographic_cell sociodemographic_sheet = Ok df
    ∧ columns df = columns (sociodemographic_labelled sociodemographic_sheet)
    ∧ len df = len sociodemographic_sheet
    ∧ column "type" df = [txt "count"; txt "percent of total"].
Proof.
  assert (NoDup (columns (sociodemographic_labelled sociodemographic_sheet)))
    as Hlabels by (apply (bool_decide_unpack _); vm_compute; exact I).
  eexists. split; [vm_compute; reflexivity |].
  destruct (sociodemographic_cell_shape sociodemographic_sheet _ Hlabels
              eq_refl) as (Hcols & Hlen & Htype & _).
  split; [exact Hcols |]. split; [exact Hlen | exact Htype].
Defined.

Lemma match_cell_resolves_witness :
  (∀ n candidates v, same_name n candidates = Some v →
     ∃ c, v = Str c ∧ c ∈ candidates)
  ∧ ∃ out, match_cell same_name census declared = Ok out
      ∧ column "medsat_name" out = [txt "c_total population"; None; None]
      ∧ len out = len declared
      ∧ ∀ x, x ∈ column "medsat_name" out →
          x = None
          ∨ ∃ c, x = Some (Str c) ∧ c ∈ columns census
                 ∧ String.prefix "c_" c = true.
Proof.
  assert (∀ n candidates v, same_name n candidates = Some v →
            ∃ c, v = Str c ∧ c ∈ candidates) as Hsame.
  { intros [[x|z|g]|] candidates v; cbn; try done.
    case_bool_decide; [|done]. intros [= <-]. eauto. }
  split; [exact Hsame |]. eexists.
  split; [vm_compute; reflexivity |]. split; [vm_compute; reflexivity |].
  apply (match_cell_resolves same_name census declared _ Hsame).
  vm_compute. reflexivity.
Defined.

Lemma download_keeps_existing_witness :
  ∃ st' err,
    ftp_download breaks_off TMP_PATH ftp_download_list (after_setup, [])
    = (st', err)
    ∧ err = Some "421 timeout"
    ∧ (∀ p, is_Some (after_setup !! p) → st'.1 !! p = after_setup !! p)
    ∧ (∀ f, f ∈ st'.2 →
         f ∈ ftp_download_list
         ∧ after_setup !! out_path TMP_PATH (last_part f) = None)
    ∧ (err = None →
         ∀ f, f ∈ ftp_download_list →
           is_Some (st'.1 !! out_path TMP_PATH (last_part f))).
Proof.
  exists (ftp_download breaks_off TMP_PATH ftp_download_list (after_setup, [])).1,
    (ftp_download breaks_off TMP_PATH ftp_download_list (after_setup, [])).2.
  split; [apply surjective_pairing |].
  split; [vm_compute; reflexivity |].
  apply (download_keeps_existing
           (λ f, match breaks_off f with
                 | Retrieved data => Written data
                 | RetrFailed partial e => Cut partial e
                 end)
           TMP_PATH ftp_download_list after_setup).
  apply surjective_pairing.
Defined.

Lemma download_rerun_witness :
  ∃ st',
    ftp_download sends_all TMP_PATH ftp_download_list (after_setup, [])
    = (st', None)
    ∧ ftp_download breaks_off TMP_PATH ftp_download_list (st'.1, [])
      = ((st'.1, []), None).
Proof.
  assert (ftp_download sends_all TMP_PATH ftp_download_list (after_setup, [])
          = ((ftp_download sends_all TMP_PATH ftp_download_list
                (after_setup, [])).1, None)) as Hrun
    by (apply run_ends; vm_compute; reflexivity).
  eexists. split; [exact Hrun |].
  exact (download_rerun
           (λ f, match sends_all f with
                 | Retrieved data => Written data
                 | RetrFailed partial e => Cut partial e
                 end)
           (λ f, match breaks_off f with
                 | Retrieved data => Written data
                 | RetrFailed partial e => Cut partial e
                 end)
           TMP_PATH ftp_download_list after_setup _ Hrun).
Defined.

Lemma ftp_failure_sticks_witness :
  ∃ st',
    ftp_download breaks_off TMP_PATH ftp_download_list (after_setup, [])
    = (st', Some "421 timeout")
    ∧ ∃ f partial,
        f ∈ ftp_download_list ∧ last st'.2 = Some f
        ∧ breaks_off f = RetrFailed partial "421 timeout"
        ∧ st'.1 !! out_path TMP_PATH (last_part f) = Some (File partial)
        ∧ ∀ files' st'' err,
            ftp_download sends_all TMP_PATH files' (st'.1, []) = (st'', err) →
            (f ∉ st''.2)
            ∧ st''.1 !! out_path TMP_PATH (last_part f) = Some (File partial).
Proof.
  assert (ftp_download breaks_off TMP_PATH ftp_download_list (after_setup, [])
          = ((ftp_download breaks_off TMP_PATH ftp_download_list
                (after_setup, [])).1, Some "421 timeout")) as Hrun
    by (apply run_ends; vm_compute; reflexivity).
  eexists. split; [exact Hrun |].
  exact (ftp_failure_sticks breaks_off sends_all TMP_PATH ftp_download_list
           after_setup _ _ Hrun).
Defined.

Lemma cdrc_failure_witness :
  ∃ st',
    cdrc_download refuses TMP_PATH cdrc_download_list (after_setup, [])
    = (st', Some "connection refused")
    ∧ ∃ url,
        url ∈ cdrc_download_list ∧ last st'.2 = Some url
        ∧ ((refuses url = GetFailed "connection refused"
            ∧ st'.1 !! out_path TMP_PATH (last_part url) = None)
           ∨ (refuses url = ContentFailed "connection refused"
              ∧ st'.1 !! out_path TMP_PATH (last_part url) = Some (File ""))).
Proof.
  assert (cdrc_download refuses TMP_PATH cdrc_download_list (after_setup, [])
          = ((cdrc_download refuses TMP_PATH cdrc_download_list
                (after_setup, [])).1, Some "connection refused")) as Hrun
    by (apply run_ends; vm_compute; reflexivity).
  eexists. split; [exact Hrun |].
  exact (cdrc_failure refuses TMP_PATH cdrc_download_list after_setup _ _ Hrun).
Defined.

Lemma chunk_files_distinct_witness :
  ∃ parts, Partitioner.partition [1; 2; 3; 4; 5]%nat 2 = Ok parts
    ∧ (written parts).*1
      = [ "spatial_signatures_01.parquet.gzip";
          "spatial_signatures_02.parquet.gzip";
          "spatial_signatures_03.parquet.gzip" ]
    ∧ NoDup (written parts).*1
    ∧ ∀ (i : nat) p, parts !! i = Some p →
        written parts !! i = Some (file_name (Z.of_nat i + 1), p.2).
Proof.
  eexists. split; [vm_compute; reflexivity |].
  split; [vm_compute; reflexivity |].
  apply (chunk_files_distinct [1; 2; 3; 4; 5]%nat 2).
  vm_compute. reflexivity.
Defined.

End MoreRuns.

(** ** The labels of the merged frame *)

Section MedsatLabelFacts.
Import Frame MedSat Normalizer Labels Examples Samples.

(** X28: when the data cell runs through, [medsat] is bound and every
    one of its column labels is single-spaced: no tab or line break, no
    two spaces in a row, whatever the labels of the files were and
    whatever the sort and the repair do.  The other variables keep their
    frames. *)
Theorem medsat_cell_labels
    (sort_values : list string → DataFrame → result DataFrame)
    (make_valid : cell → cell) st st' :
  medsat_cell sort_values make_valid st = Ok st' →
  lsoa_to_region st' = lsoa_to_region st
  ∧ medsat_2019 st' = medsat_2019 st
  ∧ medsat_2020 st' = medsat_2020 st
  ∧ ∃ df, medsat st' = Some df
      ∧ ∀ c, c ∈ columns df → single_spaced c = true.
Proof.
  unfold medsat_cell. intros Hcell.
  apply bind_Ok_inv in Hcell as (merged & _ & Hcell).
  apply bind_Ok_inv in Hcell as (sorted & _ & Hcell).
  apply bind_Ok_inv in Hcell as (geometry & _ & Hcell).
  injection Hcell as <-. cbn [lsoa_to_region medsat_2019 medsat_2020 medsat].
  do 3 (split; [reflexivity |]).
  eexists. split; [reflexivity |].
  intros c Hc. unfold map_columns in Hc. cbn [columns] in Hc.
  apply list_elem_of_fmap in Hc as (c0 & -> & _).
  apply re_sub_ws_go_single_spaced.
Qed.

Lemma medsat_cell_labels_witness :
  ∃ st st',
    load lookup_csv geojson_2019 geojson_2020 = Ok st
    ∧ medsat_cell (λ _ df, Ok df) id st = Ok st'
    ∧ lsoa_to_region st' = lsoa_to_region st
    ∧ medsat_2019 st' = medsat_2019 st
    ∧ medsat_2020 st' = medsat_2020 st
    ∧ ∃ df, medsat st' = Some df
        ∧ ∀ c, c ∈ columns df → single_spaced c = true.
Proof.
  destruct (succeeds_Ok (load lookup_csv geojson_2019 geojson_2020
                         ≫= medsat_cell (λ _ df, Ok df) id))
    as [st' Hrun]; [vm_compute; exact I |].
  apply bind_Ok_inv in Hrun as (st & Hload & Hcell).
  exists st, st'. split; [exact Hload |]. split; [exact Hcell |].
  exact (medsat_cell_labels (λ _ df, Ok df) id st st' Hcell).
Defined.

End MedsatLabelFacts.
